(** * Levenspiel sizing (CSTR followed by PFR) of [streamlit_app.py]

    The third branch of the application reads a two-row table of
    conversions [X] and rates [-rA], interpolates the rate at the
    intermediate conversion, sizes the CSTR stage with it and integrates
    [1 / -rA] over the tabulated points between the two conversions to size
    the PFR stage (lines 74 to 104).

    Numbers.  The program computes on IEEE binary64 values.  Here a finite
    value is an exact rational ([Q]) and rounding is not modelled; numeric
    results are therefore compared with [==] ([Qeq]).  The entries of the
    table and the three inputs [FA0], [X_int], [X_final] are finite.
    Dividing by zero does not raise in numpy: it yields [inf], [-inf] or
    [nan].  Those are gathered in the one value [NonFinite], which every
    later operation of the program propagates.

    Libraries.  [np.interp], [np.trapz] and [pd.DataFrame] belong to numpy
    and pandas, not to the application; they are modelled after their
    documented behaviour, in the order of operations of their sources.

    Rounding.  Theorems on computed values therefore hold of the exact
    value of the formula the program evaluates; where a statement is
    about more than tests and copies of stored numbers, it says so.
    [np_interp_b64] is the interpolation on the binary64 values
    themselves and shows what rounding does to it.

    The other two branches follow: the CSTR volume of lines 51 to 61, on
    Python floats, whose division raises on zero, and the batch time of
    lines 32 to 39, over the real numbers for its logarithm.  The reading
    of the text area (lines 78 to 81) takes Python's [float] and
    [str.strip] as parameters. *)

From Stdlib Require Import PrimFloat.
From Stdlib Require Import Reals.
From Stdlib Require Lra.
From Stdlib Require Import Ascii String.
From Stdlib Require Import QArith Qminmax ZArith List Bool Lia Lqa Sorted.
Import ListNotations.

Set Warnings "-inexact-float".

Local Open Scope Q_scope.

(** ** Numbers *)

Inductive float64 : Type :=
| Fin (q : Q)
| NonFinite.

(** Equality of computed values, up to the representation of the rational. *)
Definition feq (a b : float64) : Prop :=
  match a, b with
  | Fin p, Fin q => p == q
  | NonFinite, NonFinite => True
  | _, _ => False
  end.

Definition Qlt_bool (a b : Q) : bool := negb (Qle_bool b a).

(** [a / b] on two finite values (numpy's true_divide: no exception). *)
Definition np_divide (a b : Q) : float64 :=
  if Qeq_bool b 0 then NonFinite else Fin (a / b).

Definition fadd (a b : float64) : float64 :=
  match a, b with
  | Fin p, Fin q => Fin (p + q)
  | _, _ => NonFinite
  end.

Definition fmul (a b : float64) : float64 :=
  match a, b with
  | Fin p, Fin q => Fin (p * q)
  | _, _ => NonFinite
  end.

(** [a / b] with a finite divisor. *)
Definition fdiv (a : float64) (b : Q) : float64 :=
  match a with
  | Fin p => np_divide p b
  | NonFinite => NonFinite
  end.

(** ** Failures *)

(** [ValueError] is the exception numpy and pandas raise on ill-shaped
    arguments; [CheckRangeWarning] is the [else] branch of line 103, where
    the application warns "Check interpolation range and rate data." and
    writes no volume. *)
Inductive failure : Type :=
| ValueError
| CheckRangeWarning.

Inductive result (A : Type) : Type :=
| Ok (a : A)
| Err (e : failure).

Arguments Ok {A} a.
Arguments Err {A} e.

Definition bind {A B : Type} (r : result A) (k : A -> result B) : result B :=
  match r with
  | Ok a => k a
  | Err e => Err e
  end.

Notation "x <- r ;; k" := (bind r (fun x => k))
  (at level 61, r at next level, right associativity).

(** ** The rate table (lines 78 to 85) *)

(** A data frame with the two columns ["X"] and ["-rA"]: a sequence of rows,
    so that both columns have the same length, as pandas guarantees. *)
Definition DataFrame : Type := list (Q * Q).

Definition col_X (df : DataFrame) : list Q := map fst df.
Definition col_rA (df : DataFrame) : list Q := map snd df.

(** [pd.DataFrame({"X": X_vals, "-rA": rA_vals})]: columns of different
    lengths raise [ValueError]; nothing else is checked and the rows keep
    the order in which they were given. *)
Definition pd_DataFrame (X_vals rA_vals : list Q) : result DataFrame :=
  if (length X_vals =? length rA_vals)%nat
  then Ok (combine X_vals rA_vals)
  else Err ValueError.

(** The table substituted by the [except] branch (line 85). *)
Definition fallback_df : DataFrame := [(0.0, 0.001)].

(** Lines 78 to 85 from the two parsed rows on: the flag tells whether
    [st.error("Error parsing rate data. Check formatting.")] was shown. *)
Definition build_table (X_vals rA_vals : list Q) : bool * DataFrame :=
  match pd_DataFrame X_vals rA_vals with
  | Ok df => (false, df)
  | Err _ => (true, fallback_df)
  end.

(** ** [np.interp] *)

(** [for (i = 1; i < len && key >= arr[i]; ++i);] on [rest = arr[i:]]. *)
Fixpoint scan (key : Q) (rest : list Q) (i : nat) : nat :=
  match rest with
  | [] => i
  | a :: rest' => if Qle_bool a key then scan key rest' (S i) else i
  end.

(** The index search of numpy's interpolation: [len] when the key is above
    the last point, [-1] when it is below the first one, otherwise the
    index [j] with [arr[j] <= key < arr[j+1]] (or [len - 1]).  numpy runs
    this very scan on up to four points and a bisection on longer arrays,
    which finds the same index whenever [arr] is increasing, the only case
    numpy defines. *)
Definition binary_search_with_guess (key : Q) (arr : list Q) : Z :=
  if Qlt_bool (last arr 0) key then Z.of_nat (length arr)
  else if Qlt_bool key (hd 0 arr) then (-1)%Z
  else (Z.of_nat (scan key (tl arr) 1) - 1)%Z.

Definition at_index (a : list Q) (j : Z) : Q := nth (Z.to_nat j) a 0.

(** [np.interp([x], xp, fp)[0]] with the default [left = fp[0]] and
    [right = fp[-1]]. *)
Definition np_interp (x : Q) (xp fp : list Q) : result Q :=
  let lenxp := length xp in
  if (lenxp =? 0)%nat then Err ValueError
  else if negb (length fp =? lenxp)%nat then Err ValueError
  else
    let lval := hd 0 fp in
    let rval := last fp 0 in
    if (lenxp =? 1)%nat then
      let xp_val := hd 0 xp in
      Ok (if Qlt_bool x xp_val then lval
          else if Qlt_bool xp_val x then rval
          else hd 0 fp)
    else
      let j := binary_search_with_guess x xp in
      if (j =? -1)%Z then Ok lval
      else if (j =? Z.of_nat lenxp)%Z then Ok rval
      else if (j =? Z.of_nat lenxp - 1)%Z then Ok (at_index fp j)
      else if Qeq_bool (at_index xp j) x then Ok (at_index fp j)
      else
        let slope := (at_index fp (j + 1) - at_index fp j)
                     / (at_index xp (j + 1) - at_index xp j) in
        Ok (slope * (x - at_index xp j) + at_index fp j).

(** ** [np.trapz] *)

Fixpoint map2 {A B C : Type} (f : A -> B -> C) (l : list A) (m : list B)
  : list C :=
  match l, m with
  | a :: l', b :: m' => f a b :: map2 f l' m'
  | _, _ => []
  end.

(** [x[1:] - x[:-1]] *)
Definition np_diff (x : list Q) : list Q :=
  map2 Qminus (tl x) (removelast x).

Definition np_sum (a : list float64) : float64 :=
  fold_left fadd a (Fin 0).

(** [(d * (y[1:] + y[:-1]) / 2.0).sum()] with [d = diff(x)]. *)
Definition np_trapz (y : list float64) (x : list Q) : float64 :=
  let d := np_diff x in
  np_sum (map (fun v => fdiv v 2)
              (map2 fmul (map Fin d) (map2 fadd (tl y) (removelast y)))).

(** ** The three operations (lines 91 to 104) *)

(** Line 91. *)
Definition interpolate_rate (df : DataFrame) (X : Q) : result Q :=
  np_interp X (col_X df) (col_rA df).

(** Line 92. *)
Definition cstr_volume (FA0 X_int rate_at_X_int : Q) : float64 :=
  np_divide (FA0 * X_int) rate_at_X_int.

(** [a[mask]] for a boolean mask of the length of [a]. *)
Fixpoint bool_index {A : Type} (a : list A) (mask : list bool) : list A :=
  match a, mask with
  | v :: a', b :: mask' =>
      if b then v :: bool_index a' mask' else bool_index a' mask'
  | _, _ => []
  end.

Definition in_range (X_int X_final x : Q) : bool :=
  Qle_bool X_int x && Qle_bool x X_final.

(** Lines 94 to 104. *)
Definition pfr_volume (df : DataFrame) (FA0 X_int X_final : Q)
  : result float64 :=
  let X_array := col_X df in
  let r_array := col_rA df in
  let mask := map (in_range X_int X_final) X_array in
  let X_sub := bool_index X_array mask in
  let r_sub := bool_index r_array mask in
  if (1 <? length X_sub)%nat
  then Ok (fmul (Fin FA0) (np_trapz (map (np_divide 1) r_sub) X_sub))
  else Err CheckRangeWarning.

(** What the branch shows to the user. *)
Inductive message : Type :=
| St_error_parsing
| St_write_cstr (X_int : Q) (V_cstr : float64)
| St_write_pfr (X_int X_final : Q) (V_pfr : float64)
| St_warning_range.

(** Lines 78 to 104: the messages shown, or the exception that escapes. *)
Definition levenspiel (X_vals rA_vals : list Q) (FA0 X_int X_final : Q)
  : result (list message) :=
  let (failed, df) := build_table X_vals rA_vals in
  let shown := if failed then [St_error_parsing] else [] in
  r_interp <- interpolate_rate df X_int ;;
  let V_cstr := cstr_volume FA0 X_int r_interp in
  match pfr_volume df FA0 X_int X_final with
  | Ok V_pfr =>
      Ok (shown ++ [St_write_cstr X_int V_cstr; St_write_pfr X_int X_final V_pfr])
  | Err CheckRangeWarning => Ok (shown ++ [St_warning_range])
  | Err e => Err e
  end.

(** ** The contract in the words of the specification *)

(** The samples whose [X] lies in [[X_int, X_final]], bounds included. *)
Definition selected (df : DataFrame) (X_int X_final : Q) : DataFrame :=
  filter (fun s => in_range X_int X_final (fst s)) df.

(** Sum of [(x_{i+1} - x_i) * (y_i + y_{i+1}) / 2] over consecutive points. *)
Fixpoint trapezoid (pts : list (Q * Q)) : Q :=
  match pts with
  | [] => 0
  | (x0, y0) :: rest =>
      match rest with
      | [] => 0
      | (x1, y1) :: _ => (x1 - x0) * (y0 + y1) / 2 + trapezoid rest
      end
  end.

(** The points [(x_i, 1 / rate_i)] of the Levenspiel plot. *)
Definition levenspiel_points (df : DataFrame) : list (Q * Q) :=
  map (fun s => (fst s, 1 / snd s)) df.

Definition strictly_increasing (l : list Q) : Prop := StronglySorted Qlt l.

Definition positive_rates (df : DataFrame) : Prop :=
  Forall (fun r => 0 < r) (col_rA df).

(** The table of the documented scenario. *)
Definition scenario_table : DataFrame :=
  [(0.0, 0.01); (0.5, 0.005); (1.0, 0.0025)].

(** ** Definitions used in the proofs *)

(** The terms [d * (y[1:] + y[:-1]) / 2.0] of a table without zero rate. *)
Fixpoint trapz_terms (pts : list (Q * Q)) : list Q :=
  match pts with
  | [] => []
  | (x0, r0) :: rest =>
      match rest with
      | [] => []
      | (x1, r1) :: _ =>
          ((x1 - x0) * (1 / r1 + 1 / r0) / 2) :: trapz_terms rest
      end
  end.

(** Where the index search lands on a table with a point. *)
Inductive search_result (key : Q) (arr : list Q) : Z -> Prop :=
| search_above :
    last arr 0 < key ->
    search_result key arr (Z.of_nat (length arr))
| search_below :
    key <= last arr 0 -> key < hd 0 arr ->
    search_result key arr (-1)
| search_inside (n : nat) :
    key <= last arr 0 ->
    (n < length arr)%nat ->
    nth n arr 0 <= key ->
    ((S n < length arr)%nat -> key < nth (S n) arr 0) ->
    search_result key arr (Z.of_nat n).

(** What [np_interp] returns on at least two points. *)
Inductive interp_spec (x : Q) (xp fp : list Q) : Q -> Prop :=
| interp_left :
    x < hd 0 xp -> x <= last xp 0 ->
    interp_spec x xp fp (hd 0 fp)
| interp_right :
    last xp 0 < x ->
    interp_spec x xp fp (last fp 0)
| interp_sample (n : nat) :
    (n < length xp)%nat ->
    nth n xp 0 <= x ->
    ((S n < length xp)%nat -> x < nth (S n) xp 0) ->
    S n = length xp \/ nth n xp 0 == x ->
    interp_spec x xp fp (nth n fp 0)
| interp_linear (n : nat) :
    (S n < length xp)%nat ->
    nth n xp 0 <= x ->
    x < nth (S n) xp 0 ->
    ~ nth n xp 0 == x ->
    interp_spec x xp fp
      ((nth (S n) fp 0 - nth n fp 0) / (nth (S n) xp 0 - nth n xp 0)
       * (x - nth n xp 0) + nth n fp 0).

(** The least and the greatest value of a list. *)
Definition Qlist_min (l : list Q) : Q := fold_right Qmin (hd 0 l) l.
Definition Qlist_max (l : list Q) : Q := fold_right Qmax (hd 0 l) l.

(** ** The CSTR branch (lines 51 to 61) *)

(** The branch computes on Python floats, whose division raises
    [ZeroDivisionError] on a zero divisor: [None] here.  The quotient is
    exact: the rounding of binary64, and an underflow of a quotient or of
    a product to [0.0], are not modelled. *)
Definition py_div (a b : Q) : option Q :=
  if Qeq_bool b 0 then None else Some (a / b).

(** What the branch does: the warning of line 57, the volume written by
    line 61, or the exception that escapes from line 59 or 60. *)
Inductive cstr_outcome : Type :=
| Cstr_warning
| Cstr_write (V_cstr : Q)
| Cstr_ZeroDivisionError.

(** Lines 56 to 61, with the four inputs of lines 51 to 54. *)
Definition cstr_calculation (F_A0 X_cstr v0_cstr k_cstr : Q) : cstr_outcome :=
  if Qle_bool 1 X_cstr then Cstr_warning
  else
    match py_div F_A0 v0_cstr with
    | None => Cstr_ZeroDivisionError
    | Some C_A0 =>
        match py_div (F_A0 * X_cstr) (k_cstr * C_A0 * (1 - X_cstr)) with
        | None => Cstr_ZeroDivisionError
        | Some V_cstr => Cstr_write V_cstr
        end
    end.

(** ** The batch branch (lines 32 to 39) *)

(** The time is a real number here: [np.log] is the natural logarithm
    and rounding is not modelled.  [Batch_nonfinite] is numpy's [inf] or
    [nan], the result of its division by a zero rate constant. *)
Inductive batch_outcome : Type :=
| Batch_warning
| Batch_write (time_required : R)
| Batch_nonfinite.

(** Lines 35 to 39, with the two inputs of lines 32 and 33. *)
Definition batch_time (k X_target : R) : batch_outcome :=
  if Rle_dec 1 X_target then Batch_warning
  else if Req_dec_T k 0 then Batch_nonfinite
  else Batch_write (- ln (1 - X_target) / k)%R.

(** ** Reading the text area (lines 78 to 85) *)

(** [s.split(sep)] for a separator of one character: the pieces between
    the occurrences of [sep], empty pieces included. *)
Fixpoint str_split (sep : ascii) (s : string) : list string :=
  match s with
  | EmptyString => [EmptyString]
  | String c s' =>
      if Ascii.eqb c sep then EmptyString :: str_split sep s'
      else
        match str_split sep s' with
        | [] => [String c EmptyString]
        | w :: ws => String c w :: ws
        end
  end.

(** [list(map(float, tokens))]: [None] when [float] raises on a token. *)
Fixpoint map_float (float : string -> option Q) (tokens : list string)
  : option (list Q) :=
  match tokens with
  | [] => Some []
  | t :: ts =>
      match float t with
      | None => None
      | Some v =>
          match map_float float ts with
          | None => None
          | Some vs => Some (v :: vs)
          end
      end
  end.

Definition newline : ascii := "010"%char.
Definition comma : ascii := ","%char.

(** Lines 79 to 81.  Python's [float] and [str.strip] are parameters:
    [float] answers [None] where Python raises [ValueError].  [None] is
    any exception of the [try] block ([IndexError] for a missing second
    row). *)
Definition parse_rows (float : string -> option Q) (strip : string -> string)
           (rate_input : string) : option (list Q * list Q) :=
  let rows := str_split newline (strip rate_input) in
  match nth_error rows 0 with
  | None => None
  | Some row0 =>
      match map_float float (str_split comma row0) with
      | None => None
      | Some X_vals =>
          match nth_error rows 1 with
          | None => None
          | Some row1 =>
              match map_float float (str_split comma row1) with
              | None => None
              | Some rA_vals => Some (X_vals, rA_vals)
              end
          end
      end
  end.

(** Lines 78 to 85 from the text on. *)
Definition load_table (float : string -> option Q) (strip : string -> string)
           (rate_input : string) : bool * DataFrame :=
  match parse_rows float strip rate_input with
  | Some (X_vals, rA_vals) => build_table X_vals rA_vals
  | None => (true, fallback_df)
  end.

(** Number of occurrences of a character. *)
Fixpoint count_char (c : ascii) (s : string) : nat :=
  match s with
  | EmptyString => 0
  | String a s' => (if Ascii.eqb a c then 1 else 0) + count_char c s'
  end.

(** ** The interpolation in binary64 *)







(** ** Tables for the examples *)

(** Python's [float] on the tokens of the examples. *)
Definition example_float (s : string) : option Q :=
  if String.eqb s "0.0"%string then Some 0.0
  else if String.eqb s "0.5"%string then Some 0.5
  else if String.eqb s "1.0"%string then Some 1.0
  else if String.eqb s "0.01"%string then Some 0.01
  else if String.eqb s "0.005"%string then Some 0.005
  else if String.eqb s "0.0025"%string then Some 0.0025
  else None.

(** [str.strip] on a text without surrounding white space. *)
Definition example_strip (s : string) : string := s.

(** A table whose middle sample has rate zero. *)
Definition zero_rate_table : DataFrame :=
  [(0.5, 0.005); (0.7, 0); (0.9, 0.001)].

(** ** Comparison of results *)

(** Equality of two outcomes of [pfr_volume], the volumes up to [feq]. *)
Definition result_feq (a b : result float64) : Prop :=
  match a, b with
  | Ok u, Ok v => feq u v
  | Err e, Err e' => e = e'
  | _, _ => False
  end.

(** ** Proof scripts shared by the examples *)

Ltac solve_increasing := repeat constructor; reflexivity.

(** ** Masks and filters *)

Lemma bool_index_map_filter {A B : Type} (g : A -> B) (p : A -> bool)
      (l : list A) :
  bool_index (map g l) (map p l) = map g (filter p l).
Proof.
  induction l as [|a l IH]; simpl; [reflexivity|].
  destruct (p a); simpl; now rewrite IH.
Qed.

Lemma mask_of_rows (df : DataFrame) (X_int X_final : Q) :
  map (in_range X_int X_final) (col_X df)
  = map (fun s => in_range X_int X_final (fst s)) df.
Proof. unfold col_X. now rewrite map_map. Qed.

Lemma X_sub_selected (df : DataFrame) (X_int X_final : Q) :
  bool_index (col_X df) (map (in_range X_int X_final) (col_X df))
  = col_X (selected df X_int X_final).
Proof.
  rewrite mask_of_rows. unfold col_X, selected.
  apply bool_index_map_filter.
Qed.

Lemma r_sub_selected (df : DataFrame) (X_int X_final : Q) :
  bool_index (col_rA df) (map (in_range X_int X_final) (col_X df))
  = col_rA (selected df X_int X_final).
Proof.
  rewrite mask_of_rows. unfold col_rA, selected.
  apply bool_index_map_filter.
Qed.

(** [pfr_volume] reads the table only through the selected rows. *)
Lemma pfr_volume_selected (df : DataFrame) (FA0 X_int X_final : Q) :
  pfr_volume df FA0 X_int X_final
  = let sel := selected df X_int X_final in
    if (1 <? length sel)%nat
    then Ok (fmul (Fin FA0)
                  (np_trapz (map (np_divide 1) (col_rA sel)) (col_X sel)))
    else Err CheckRangeWarning.
Proof.
  unfold pfr_volume. cbv zeta.
  rewrite X_sub_selected, r_sub_selected.
  unfold col_X at 1. now rewrite length_map.
Qed.

Lemma in_range_spec (X_int X_final x : Q) :
  in_range X_int X_final x = true <-> X_int <= x /\ x <= X_final.
Proof.
  unfold in_range. rewrite andb_true_iff, !Qle_bool_iff. tauto.
Qed.

Lemma selected_spec (df : DataFrame) (X_int X_final : Q) (s : Q * Q) :
  In s (selected df X_int X_final)
  <-> In s df /\ X_int <= fst s /\ fst s <= X_final.
Proof.
  unfold selected. rewrite filter_In, in_range_spec. tauto.
Qed.

(** ** The trapezoidal rule *)

Lemma np_diff_cons2 (x0 x1 : Q) (xs : list Q) :
  np_diff (x0 :: x1 :: xs) = (x1 - x0) :: np_diff (x1 :: xs).
Proof. reflexivity. Qed.

Lemma np_divide_nonzero (a b : Q) :
  ~ b == 0 -> np_divide a b = Fin (a / b).
Proof.
  intros Hb. unfold np_divide.
  destruct (Qeq_bool b 0) eqn:E; [|reflexivity].
  apply Qeq_bool_eq in E. contradiction.
Qed.

Lemma trapz_terms_finite (sel : DataFrame) :
  Forall (fun r => ~ r == 0) (col_rA sel) ->
  map (fun v => fdiv v 2)
      (map2 fmul (map Fin (np_diff (col_X sel)))
            (map2 fadd (tl (map (np_divide 1) (col_rA sel)))
                  (removelast (map (np_divide 1) (col_rA sel)))))
  = map Fin (trapz_terms sel).
Proof.
  induction sel as [|[x0 r0] sel IH]; intros Hr; [reflexivity|].
  destruct sel as [|[x1 r1] sel]; [reflexivity|].
  inversion Hr as [|? ? Hr0 Hr']; subst.
  specialize (IH Hr').
  inversion Hr' as [|? ? Hr1 _]; subst.
  change (col_X ((x0, r0) :: (x1, r1) :: sel))
    with (x0 :: x1 :: col_X sel).
  rewrite np_diff_cons2.
  change (col_rA ((x0, r0) :: (x1, r1) :: sel))
    with (r0 :: r1 :: col_rA sel).
  change (map (np_divide 1) (r0 :: r1 :: col_rA sel))
    with (np_divide 1 r0 :: map (np_divide 1) (col_rA ((x1, r1) :: sel))).
  change (tl (np_divide 1 r0 :: map (np_divide 1) (col_rA ((x1, r1) :: sel))))
    with (np_divide 1 r1 :: tl (map (np_divide 1) (col_rA ((x1, r1) :: sel)))).
  change (removelast
            (np_divide 1 r0 :: map (np_divide 1) (col_rA ((x1, r1) :: sel))))
    with (np_divide 1 r0
          :: removelast (map (np_divide 1) (col_rA ((x1, r1) :: sel)))).
  change (trapz_terms ((x0, r0) :: (x1, r1) :: sel))
    with (((x1 - x0) * (1 / r1 + 1 / r0) / 2)
          :: trapz_terms ((x1, r1) :: sel)).
  cbn [map map2].
  change (map Fin (np_diff (x1 :: col_X sel)))
    with (map Fin (np_diff (col_X ((x1, r1) :: sel)))).
  rewrite IH.
  rewrite (np_divide_nonzero 1 r0 Hr0), (np_divide_nonzero 1 r1 Hr1).
  reflexivity.
Qed.

Lemma fold_fadd_finite (qs : list Q) (a : Q) :
  fold_left fadd (map Fin qs) (Fin a) = Fin (fold_left Qplus qs a).
Proof.
  revert a. induction qs as [|q qs IH]; intros a; simpl; [reflexivity|].
  apply IH.
Qed.

Lemma fold_Qplus_shift (qs : list Q) (a : Q) :
  fold_left Qplus qs a == a + fold_left Qplus qs 0.
Proof.
  revert a. induction qs as [|q qs IH]; intros a; simpl.
  - lra.
  - rewrite (IH (a + q)), (IH (0 + q)). lra.
Qed.

Lemma sum_trapz_terms (sel : DataFrame) :
  fold_left Qplus (trapz_terms sel) 0 == trapezoid (levenspiel_points sel).
Proof.
  induction sel as [|[x0 r0] sel IH]; [reflexivity|].
  destruct sel as [|[x1 r1] sel]; [reflexivity|].
  change (trapz_terms ((x0, r0) :: (x1, r1) :: sel))
    with (((x1 - x0) * (1 / r1 + 1 / r0) / 2)
          :: trapz_terms ((x1, r1) :: sel)).
  change (trapezoid (levenspiel_points ((x0, r0) :: (x1, r1) :: sel)))
    with ((x1 - x0) * (1 / r0 + 1 / r1) / 2
          + trapezoid (levenspiel_points ((x1, r1) :: sel))).
  cbn [fold_left]. rewrite fold_Qplus_shift, IH.
  unfold Qdiv. ring.
Qed.

Lemma np_trapz_finite (sel : DataFrame) :
  Forall (fun r => ~ r == 0) (col_rA sel) ->
  exists S, np_trapz (map (np_divide 1) (col_rA sel)) (col_X sel) = Fin S
            /\ S == trapezoid (levenspiel_points sel).
Proof.
  intros Hr. unfold np_trapz, np_sum. cbv zeta.
  rewrite (trapz_terms_finite sel Hr), fold_fadd_finite.
  eexists. split; [reflexivity|]. apply sum_trapz_terms.
Qed.

Lemma selected_rates (df : DataFrame) (X_int X_final : Q) (P : Q -> Prop) :
  Forall P (col_rA df) -> Forall P (col_rA (selected df X_int X_final)).
Proof.
  unfold col_rA, selected. rewrite !Forall_forall.
  intros H r Hin. apply in_map_iff in Hin as [s [<- Hs]].
  apply filter_In in Hs as [Hs _]. apply H, in_map, Hs.
Qed.

(** ** Interpolation always answers on a table with a row *)

Lemma col_lengths (df : DataFrame) :
  length (col_X df) = length df /\ length (col_rA df) = length df.
Proof. unfold col_X, col_rA. now rewrite !length_map. Qed.

Lemma interpolate_rate_total (df : DataFrame) (X : Q) :
  df <> [] -> exists r, interpolate_rate df X = Ok r.
Proof.
  intros Hne. unfold interpolate_rate, np_interp. cbv zeta.
  destruct (col_lengths df) as [-> ->].
  destruct df as [|s df]; [contradiction|].
  cbn [length Nat.eqb]. rewrite Nat.eqb_refl. cbn [negb].
  repeat match goal with
         | |- context [if ?b then _ else _] => destruct b
         end; eexists; reflexivity.
Qed.

(** ** The PFR stage *)

(** C1: on a table of at least two samples with strictly increasing X and
    positive rates, when at least two samples lie in [[X_int, X_final]],
    [pfr_volume] is [FA0] times the trapezoidal sum
    [sum (x_{i+1} - x_i) * (y_i + y_{i+1}) / 2], [y_i = 1 / rate_i], over
    the selected samples, which are exactly the table samples whose X lies
    in [[X_int, X_final]], bounds included. *)
Theorem pfr_volume_trapezoid (df : DataFrame) (FA0 X_int X_final : Q) :
  (2 <= length df)%nat ->
  strictly_increasing (col_X df) ->
  positive_rates df ->
  (2 <= length (selected df X_int X_final))%nat ->
  (exists V,
      pfr_volume df FA0 X_int X_final = Ok (Fin V)
      /\ V == FA0 * trapezoid (levenspiel_points (selected df X_int X_final)))
  /\ (forall s, In s (selected df X_int X_final)
                <-> In s df /\ X_int <= fst s /\ fst s <= X_final).
Proof.
  intros _ _ Hpos Hsel. split; [|apply selected_spec].
  rewrite pfr_volume_selected. cbv zeta.
  assert (Hlen : (1 <? length (selected df X_int X_final))%nat = true)
    by (apply Nat.ltb_lt; lia).
  rewrite Hlen.
  destruct (np_trapz_finite (selected df X_int X_final)) as [S [HS HSeq]].
  { apply selected_rates.
    eapply Forall_impl; [|exact Hpos].
    cbv beta. intros r Hr Hz. lra. }
  rewrite HS. exists (FA0 * S). split; [reflexivity|].
  now rewrite HSeq.
Qed.

Lemma pfr_volume_trapezoid_witness :
  (2 <= length scenario_table)%nat
  /\ strictly_increasing (col_X scenario_table)
  /\ positive_rates scenario_table
  /\ (2 <= length (selected scenario_table 0.5 1))%nat
  /\ exists V,
      pfr_volume scenario_table 1 0.5 1 = Ok (Fin V)
      /\ V == 1 * trapezoid (levenspiel_points (selected scenario_table 0.5 1)).
Proof.
  assert (H1 : (2 <= length scenario_table)%nat) by (simpl; lia).
  assert (H2 : strictly_increasing (col_X scenario_table))
    by solve_increasing.
  assert (H3 : positive_rates scenario_table)
    by solve_increasing.
  assert (H4 : (2 <= length (selected scenario_table 0.5 1))%nat)
    by (vm_compute; lia).
  split; [exact H1|]. split; [exact H2|].
  split; [exact H3|]. split; [exact H4|].
  exact (proj1 (pfr_volume_trapezoid scenario_table 1 0.5 1 H1 H2 H3 H4)).
Defined.

(** C4: when fewer than two table samples have X in [[X_int, X_final]],
    [pfr_volume] takes the warning branch and yields no volume; the
    application then writes neither volume. *)
Theorem pfr_volume_insufficient_data (df : DataFrame) (FA0 X_int X_final : Q) :
  (length (selected df X_int X_final) < 2)%nat ->
  pfr_volume df FA0 X_int X_final = Err CheckRangeWarning
  /\ forall X_vals rA_vals failed,
      build_table X_vals rA_vals = (failed, df) ->
      df <> [] ->
      levenspiel X_vals rA_vals FA0 X_int X_final
      = Ok ((if failed then [St_error_parsing] else []) ++ [St_warning_range]).
Proof.
  intros Hlt.
  assert (Hpfr : pfr_volume df FA0 X_int X_final = Err CheckRangeWarning).
  { rewrite pfr_volume_selected. cbv zeta.
    assert (Hlen : (1 <? length (selected df X_int X_final))%nat = false)
      by (apply Nat.ltb_ge; lia).
    now rewrite Hlen. }
  split; [exact Hpfr|].
  intros X_vals rA_vals failed Hb Hne.
  unfold levenspiel. rewrite Hb.
  destruct (interpolate_rate_total df X_int Hne) as [r Hr].
  rewrite Hr. cbn [bind]. now rewrite Hpfr.
Qed.

Lemma pfr_volume_insufficient_data_witness :
  (length (selected scenario_table 0.5 0.75) < 2)%nat
  /\ pfr_volume scenario_table 1 0.5 0.75 = Err CheckRangeWarning.
Proof.
  assert (H : (length (selected scenario_table 0.5 0.75) < 2)%nat)
    by (vm_compute; lia).
  split; [exact H|].
  exact (proj1 (pfr_volume_insufficient_data scenario_table 1 0.5 0.75 H)).
Defined.

(** C9: [pfr_volume] depends only on the samples whose X lies in
    [[X_int, X_final]]: two tables with the same samples in that range,
    whatever their other samples, give the same result. *)
Theorem pfr_volume_frame (df1 df2 : DataFrame) (FA0 X_int X_final : Q) :
  selected df1 X_int X_final = selected df2 X_int X_final ->
  pfr_volume df1 FA0 X_int X_final = pfr_volume df2 FA0 X_int X_final.
Proof.
  intros Hsel. rewrite !pfr_volume_selected. cbv zeta. now rewrite Hsel.
Qed.

Lemma pfr_volume_frame_witness :
  selected scenario_table 0.5 1
  = selected [(0.1, 7); (0.5, 0.005); (1.0, 0.0025); (2, 9)] 0.5 1
  /\ pfr_volume scenario_table 1 0.5 1
     = pfr_volume [(0.1, 7); (0.5, 0.005); (1.0, 0.0025); (2, 9)]
                  1 0.5 1.
Proof.
  assert (H : selected scenario_table 0.5 1
              = selected [(0.1, 7); (0.5, 0.005); (1.0, 0.0025); (2, 9)]
                         0.5 1) by reflexivity.
  split; [exact H|].
  exact (pfr_volume_frame _ _ 1 0.5 1 H).
Defined.

(** ** The index search *)

Lemma Qlt_bool_iff (a b : Q) : Qlt_bool a b = true <-> a < b.
Proof.
  unfold Qlt_bool. rewrite negb_true_iff.
  destruct (Qle_bool b a) eqn:E.
  - apply Qle_bool_iff in E. split; [discriminate|lra].
  - split; [intros _|reflexivity].
    apply Qnot_le_lt. intros H. apply Qle_bool_iff in H. congruence.
Qed.

Lemma Qlt_bool_false (a b : Q) : Qlt_bool a b = false <-> b <= a.
Proof.
  rewrite <- not_true_iff_false, Qlt_bool_iff. split; intros H; lra.
Qed.

Lemma scan_spec (key : Q) (rest : list Q) (i0 : nat) :
  let i := scan key rest i0 in
  (i0 <= i <= i0 + length rest)%nat
  /\ (forall k, (k < i - i0)%nat -> nth k rest 0 <= key)
  /\ ((i < i0 + length rest)%nat -> key < nth (i - i0) rest 0).
Proof.
  revert i0. induction rest as [|a rest IH]; intros i0; cbn [scan length].
  - cbv zeta. repeat split; try lia.
  - destruct (Qle_bool a key) eqn:E.
    + specialize (IH (S i0)). cbv zeta in IH |- *.
      destruct IH as [Hb [Hle Hlt]].
      split; [lia|]. split.
      * intros [|k] Hk; cbn [nth].
        -- now apply Qle_bool_iff.
        -- apply Hle. lia.
      * intros Hi.
        replace (scan key rest (S i0) - i0)%nat
          with (S (scan key rest (S i0) - S i0)) by lia.
        cbn [nth]. apply Hlt. lia.
    + cbv zeta. split; [lia|]. split.
      * intros k Hk. lia.
      * intros _. rewrite Nat.sub_diag. cbn [nth].
        apply Qlt_bool_iff. unfold Qlt_bool. now rewrite E.
Qed.

Lemma binary_search_with_guess_spec (key : Q) (arr : list Q) :
  (1 <= length arr)%nat ->
  search_result key arr (binary_search_with_guess key arr).
Proof.
  intros Hlen. unfold binary_search_with_guess.
  destruct (Qlt_bool (last arr 0) key) eqn:Ea.
  { apply search_above. now apply Qlt_bool_iff. }
  apply Qlt_bool_false in Ea.
  destruct (Qlt_bool key (hd 0 arr)) eqn:Eb.
  { apply search_below; [exact Ea|now apply Qlt_bool_iff]. }
  apply Qlt_bool_false in Eb.
  destruct arr as [|a0 rest]; [cbn in Hlen; lia|].
  cbn [tl hd] in *.
  destruct (scan_spec key rest 1) as [Hb [Hle Hlt]].
  set (i := scan key rest 1) in *.
  replace (Z.of_nat i - 1)%Z with (Z.of_nat (i - 1)) by lia.
  apply search_inside; [exact Ea|cbn [length]; lia| |].
  - destruct (i - 1)%nat as [|k] eqn:Ek; cbn [nth]; [exact Eb|].
    apply Hle. lia.
  - cbn [length]. intros Hn.
    cbn [nth]. apply Hlt. lia.
Qed.

(** ** Strictly increasing sequences *)

Lemma strictly_increasing_nth (l : list Q) (i j : nat) :
  strictly_increasing l -> (i < j < length l)%nat ->
  nth i l 0 < nth j l 0.
Proof.
  intros Hs. revert i j.
  induction Hs as [|a l Hs IH Ha]; intros i j Hij; cbn [length] in Hij.
  - lia.
  - destruct j as [|j]; [lia|]. destruct i as [|i]; cbn [nth].
    + rewrite Forall_forall in Ha. apply Ha, nth_In. lia.
    + apply IH. lia.
Qed.

Lemma strictly_increasing_nth_le (l : list Q) (i j : nat) :
  strictly_increasing l -> (i <= j < length l)%nat ->
  nth i l 0 <= nth j l 0.
Proof.
  intros Hs Hij. destruct (Nat.eq_dec i j) as [->|Hne].
  - apply Qle_refl.
  - apply Qlt_le_weak, strictly_increasing_nth; [exact Hs|lia].
Qed.

Lemma last_nth (l : list Q) :
  last l 0 = nth (length l - 1) l 0.
Proof.
  induction l as [|a l IH]; [reflexivity|].
  destruct l as [|b l]; [reflexivity|].
  change (last (a :: b :: l) 0) with (last (b :: l) 0).
  rewrite IH. cbn [length Nat.sub]. rewrite Nat.sub_0_r. reflexivity.
Qed.

Lemma hd_nth (l : list Q) : hd 0 l = nth 0 l 0.
Proof. now destruct l. Qed.

(** ** What [np.interp] returns on at least two points *)

Lemma at_index_of_nat (a : list Q) (n : nat) :
  at_index a (Z.of_nat n) = nth n a 0.
Proof. unfold at_index. now rewrite Nat2Z.id. Qed.

Lemma at_index_succ (a : list Q) (n : nat) :
  at_index a (Z.of_nat n + 1) = nth (S n) a 0.
Proof.
  unfold at_index. f_equal. lia.
Qed.

Lemma np_interp_spec (x : Q) (xp fp : list Q) :
  (2 <= length xp)%nat -> length fp = length xp ->
  exists r, np_interp x xp fp = Ok r /\ interp_spec x xp fp r.
Proof.
  intros Hlen Hfp. unfold np_interp. cbv zeta.
  rewrite Hfp, Nat.eqb_refl. cbn [negb].
  destruct (Nat.eqb_spec (length xp) 0) as [E0|_]; [lia|].
  destruct (Nat.eqb_spec (length xp) 1) as [E1|_]; [lia|].
  destruct (binary_search_with_guess_spec x xp) as [Ha|Hl Hb|n Hl Hn Hle Hlt];
    [lia| | |].
  - (* above the last point *)
    destruct (Z.eqb_spec (Z.of_nat (length xp)) (-1)) as [E|_]; [lia|].
    rewrite Z.eqb_refl. eexists. split; [reflexivity|].
    now apply interp_right.
  - (* below the first point *)
    cbn [Z.eqb Pos.eqb]. eexists. split; [reflexivity|].
    now apply interp_left.
  - destruct (Z.eqb_spec (Z.of_nat n) (-1)) as [E|_]; [lia|].
    destruct (Z.eqb_spec (Z.of_nat n) (Z.of_nat (length xp))) as [E|_]; [lia|].
    rewrite !at_index_of_nat, !at_index_succ.
    destruct (Z.eqb_spec (Z.of_nat n) (Z.of_nat (length xp) - 1)) as [E|E].
    + eexists. split; [reflexivity|].
      apply interp_sample; try assumption. left. lia.
    + destruct (Qeq_bool (nth n xp 0) x) eqn:Eq.
      * eexists. split; [reflexivity|].
        apply interp_sample; try assumption.
        right. now apply Qeq_bool_eq.
      * eexists. split; [reflexivity|].
        assert (Hn' : (S n < length xp)%nat) by lia.
        apply interp_linear; try assumption; [now apply Hlt|].
        now apply Qeq_bool_neq.
Qed.

Lemma interpolate_rate_spec (df : DataFrame) (X : Q) :
  (2 <= length df)%nat ->
  exists r, interpolate_rate df X = Ok r
            /\ interp_spec X (col_X df) (col_rA df) r.
Proof.
  intros Hlen. destruct (col_lengths df) as [HX Hr].
  apply np_interp_spec; congruence.
Qed.

(** C7: on a table of at least two strictly increasing X samples,
    [interpolate_rate] below the smallest table X returns the first
    sample's rate and above the largest table X the last sample's rate. *)
Theorem interpolate_rate_clamps (df : DataFrame) (X : Q) :
  (2 <= length df)%nat ->
  strictly_increasing (col_X df) ->
  ((forall x, In x (col_X df) -> X < x) ->
   interpolate_rate df X = Ok (hd 0 (col_rA df)))
  /\ ((forall x, In x (col_X df) -> x < X) ->
      interpolate_rate df X = Ok (last (col_rA df) 0)).
Proof.
  intros Hlen _.
  destruct (interpolate_rate_spec df X Hlen) as [r [Hr Hs]].
  assert (HlenX : length (col_X df) = length df) by apply col_lengths.
  assert (Hlast : In (last (col_X df) 0) (col_X df)).
  { rewrite last_nth. apply nth_In. lia. }
  assert (Hhd : In (hd 0 (col_X df)) (col_X df)).
  { rewrite hd_nth. apply nth_In. lia. }
  split; intros Hall; rewrite Hr; f_equal.
  - destruct Hs as [Hb Hl|Ha|n Hn Hle Hlt Hor|n Hn Hle Hlt Hne].
    + reflexivity.
    + specialize (Hall _ Hlast). lra.
    + assert (Hc : X < nth n (col_X df) 0) by (apply Hall, nth_In; lia). lra.
    + assert (Hc : X < nth n (col_X df) 0) by (apply Hall, nth_In; lia). lra.
  - destruct Hs as [Hb Hl|Ha|n Hn Hle Hlt Hor|n Hn Hle Hlt Hne].
    + specialize (Hall _ Hhd). lra.
    + reflexivity.
    + assert (Hc : nth n (col_X df) 0 < X) by (apply Hall, nth_In; lia).
      destruct Hor as [Hor|Hor]; [|lra].
      rewrite last_nth.
      replace (length (col_rA df) - 1)%nat with n; [reflexivity|].
      destruct (col_lengths df) as [_ ->]. lia.
    + assert (Hc : nth (S n) (col_X df) 0 < X) by (apply Hall, nth_In; lia).
      lra.
Qed.

Lemma interpolate_rate_clamps_witness :
  (2 <= length scenario_table)%nat
  /\ strictly_increasing (col_X scenario_table)
  /\ (forall x, In x (col_X scenario_table) -> - 1 < x)
  /\ interpolate_rate scenario_table (- 1) = Ok (hd 0 (col_rA scenario_table))
  /\ (forall x, In x (col_X scenario_table) -> x < 2)
  /\ interpolate_rate scenario_table 2 = Ok (last (col_rA scenario_table) 0).
Proof.
  assert (H1 : (2 <= length scenario_table)%nat) by (simpl; lia).
  assert (H2 : strictly_increasing (col_X scenario_table))
    by solve_increasing.
  assert (H3 : forall x, In x (col_X scenario_table) -> - 1 < x)
    by (simpl; intros x [<-|[<-|[<-|[]]]]; reflexivity).
  assert (H4 : forall x, In x (col_X scenario_table) -> x < 2)
    by (simpl; intros x [<-|[<-|[<-|[]]]]; reflexivity).
  split; [exact H1|]. split; [exact H2|]. split; [exact H3|].
  split; [|split; [exact H4|]].
  - exact (proj1 (interpolate_rate_clamps scenario_table (- 1) H1 H2) H3).
  - exact (proj2 (interpolate_rate_clamps scenario_table 2 H1 H2) H4).
Defined.

(** ** Interpolation at the samples *)

Lemma interpolate_rate_single (x r X : Q) :
  interpolate_rate [(x, r)] X = Ok r.
Proof.
  unfold interpolate_rate, np_interp. cbn.
  now destruct (Qlt_bool X x), (Qlt_bool x X).
Qed.

Lemma nth_error_columns (df : DataFrame) (i : nat) (x r : Q) :
  nth_error df i = Some (x, r) ->
  (i < length df)%nat
  /\ nth i (col_X df) 0 = x /\ nth i (col_rA df) 0 = r.
Proof.
  intros H. split; [apply nth_error_Some; congruence|].
  unfold col_X, col_rA.
  split.
  - change 0 with (fst (0, 0)) at 1. rewrite map_nth.
    now rewrite (nth_error_nth _ _ _ H).
  - change 0 with (snd (0, 0)) at 1. rewrite map_nth.
    now rewrite (nth_error_nth _ _ _ H).
Qed.

(** C8: on a table with strictly increasing X values, [interpolate_rate]
    at the i-th X value of the table returns exactly the i-th stored
    rate. *)
Theorem interpolate_rate_at_sample (df : DataFrame) (i : nat) (x r : Q) :
  strictly_increasing (col_X df) ->
  nth_error df i = Some (x, r) ->
  interpolate_rate df x = Ok r.
Proof.
  intros Hs Hi.
  destruct (nth_error_columns df i x r Hi) as [Hlt [Hx Hr]].
  destruct (col_lengths df) as [HlenX HlenR].
  destruct (le_lt_dec 2 (length df)) as [H2|H1].
  - destruct (interpolate_rate_spec df x H2) as [v [Hv Hspec]].
    rewrite Hv. f_equal.
    assert (Hmono : forall a b, (a < b < length (col_X df))%nat ->
                                nth a (col_X df) 0 < nth b (col_X df) 0)
      by (intros a b; now apply strictly_increasing_nth).
    assert (Hmono' : forall a b, (a <= b < length (col_X df))%nat ->
                                 nth a (col_X df) 0 <= nth b (col_X df) 0)
      by (intros a b; now apply strictly_increasing_nth_le).
    destruct Hspec as [Hb Hl|Ha|n Hn Hle Hup Hor|n Hn Hle Hup Hne].
    + rewrite hd_nth in Hb.
      assert (Hc := Hmono' 0%nat i). rewrite Hx in Hc.
      assert (Hc' : nth 0 (col_X df) 0 <= x) by (apply Hc; lia). lra.
    + rewrite last_nth in Ha.
      assert (Hc := Hmono' i (length (col_X df) - 1)%nat). rewrite Hx in Hc.
      assert (Hc' : x <= nth (length (col_X df) - 1) (col_X df) 0)
        by (apply Hc; lia).
      lra.
    + assert (Hni : n = i).
      { destruct (lt_eq_lt_dec n i) as [[Hlt'|Heq]|Hgt]; [|exact Heq|].
        - (* n < i: then x < X[n+1] <= X[i] = x *)
          assert (Hc := Hmono' (S n) i). rewrite Hx in Hc.
          assert (Hc' : nth (S n) (col_X df) 0 <= x) by (apply Hc; lia).
          assert (Hc'' : x < nth (S n) (col_X df) 0) by (apply Hup; lia).
          lra.
        - assert (Hc := Hmono i n). rewrite Hx in Hc.
          assert (Hc' : x < nth n (col_X df) 0) by (apply Hc; lia). lra. }
      subst n. exact Hr.
    + exfalso.
      destruct (lt_eq_lt_dec n i) as [[Hlt'|Heq]|Hgt].
      * assert (Hc := Hmono' (S n) i). rewrite Hx in Hc.
        assert (Hc' : nth (S n) (col_X df) 0 <= x) by (apply Hc; lia). lra.
      * subst n. apply Hne. rewrite Hx. reflexivity.
      * assert (Hc := Hmono i n). rewrite Hx in Hc.
        assert (Hc' : x < nth n (col_X df) 0) by (apply Hc; lia). lra.
  - destruct df as [|[x0 r0] [|s df]]; cbn [length] in *; try lia.
    destruct i as [|i]; [|lia]. cbn in Hi. injection Hi as -> ->.
    apply interpolate_rate_single.
Qed.

Lemma interpolate_rate_at_sample_witness :
  strictly_increasing (col_X scenario_table)
  /\ nth_error scenario_table 1 = Some (0.5, 0.005)
  /\ interpolate_rate scenario_table 0.5 = Ok 0.005.
Proof.
  assert (H1 : strictly_increasing (col_X scenario_table))
    by solve_increasing.
  assert (H2 : nth_error scenario_table 1 = Some (0.5, 0.005))
    by reflexivity.
  split; [exact H1|]. split; [exact H2|].
  exact (interpolate_rate_at_sample scenario_table 1 0.5 0.005 H1 H2).
Defined.

(** ** Range of the interpolated rate *)

Lemma fold_Qmin_le (l : list Q) (d y : Q) :
  In y l -> fold_right Qmin d l <= y.
Proof.
  induction l as [|a l IH]; intros Hin; [contradiction|].
  cbn [fold_right]. destruct Hin as [->|Hin].
  - apply Q.le_min_l.
  - eapply Qle_trans; [apply Q.le_min_r|now apply IH].
Qed.

Lemma fold_Qmax_ge (l : list Q) (d y : Q) :
  In y l -> y <= fold_right Qmax d l.
Proof.
  induction l as [|a l IH]; intros Hin; [contradiction|].
  cbn [fold_right]. destruct Hin as [->|Hin].
  - apply Q.le_max_l.
  - eapply Qle_trans; [now apply IH|apply Q.le_max_r].
Qed.

Lemma Qlist_bounds (l : list Q) (y : Q) :
  In y l -> Qlist_min l <= y /\ y <= Qlist_max l.
Proof.
  intros Hin. split; [now apply fold_Qmin_le|now apply fold_Qmax_ge].
Qed.

(** The minimum and the maximum are values of the list. *)
Lemma fold_Qmin_attained (l : list Q) (d : Q) :
  fold_right Qmin d l == d
  \/ exists y, In y l /\ y == fold_right Qmin d l.
Proof.
  induction l as [|b l IH]; [left; reflexivity|].
  cbn [fold_right].
  destruct (Q.min_spec b (fold_right Qmin d l)) as [[_ E]|[_ E]].
  - right. exists b. split; [now left|now rewrite E].
  - destruct IH as [IH|[y [Hy Hey]]].
    + left. now rewrite E.
    + right. exists y. split; [now right|now rewrite E].
Qed.

Lemma fold_Qmax_attained (l : list Q) (d : Q) :
  fold_right Qmax d l == d
  \/ exists y, In y l /\ y == fold_right Qmax d l.
Proof.
  induction l as [|b l IH]; [left; reflexivity|].
  cbn [fold_right].
  destruct (Q.max_spec b (fold_right Qmax d l)) as [[_ E]|[_ E]].
  - destruct IH as [IH|[y [Hy Hey]]].
    + left. now rewrite E.
    + right. exists y. split; [now right|now rewrite E].
  - right. exists b. split; [now left|now rewrite E].
Qed.

Lemma Qlist_min_attained (l : list Q) :
  l <> [] -> exists y, In y l /\ y == Qlist_min l.
Proof.
  intros Hne. destruct l as [|a l]; [contradiction|].
  unfold Qlist_min. cbn [hd].
  destruct (fold_Qmin_attained (a :: l) a) as [E|H]; [|exact H].
  exists a. split; [now left|now rewrite E].
Qed.

Lemma Qlist_max_attained (l : list Q) :
  l <> [] -> exists y, In y l /\ y == Qlist_max l.
Proof.
  intros Hne. destruct l as [|a l]; [contradiction|].
  unfold Qlist_max. cbn [hd].
  destruct (fold_Qmax_attained (a :: l) a) as [E|H]; [|exact H].
  exists a. split; [now left|now rewrite E].
Qed.

(** A point of the segment between two samples has its rate between
    theirs. *)
Lemma segment_bounds (x0 x1 x y0 y1 m M : Q) :
  x0 <= x -> x < x1 ->
  m <= y0 -> m <= y1 -> y0 <= M -> y1 <= M ->
  m <= (y1 - y0) / (x1 - x0) * (x - x0) + y0
  /\ (y1 - y0) / (x1 - x0) * (x - x0) + y0 <= M.
Proof.
  intros H0 H1 Hm0 Hm1 HM0 HM1.
  set (d := x1 - x0). set (t := x - x0).
  assert (Hd : 0 < d) by (unfold d; lra).
  assert (Ht : 0 <= t /\ t < d) by (unfold t, d; lra).
  set (r := (y1 - y0) / d * t + y0).
  assert (E : r * d == y1 * t + y0 * (d - t)).
  { unfold r. field. lra. }
  split.
  - apply Qnot_lt_le. intros Hc.
    assert (r * d < m * d) by nra.
    nra.
  - apply Qnot_lt_le. intros Hc.
    assert (M * d < r * d) by nra.
    nra.
Qed.




(** ** An interval reduced to a point *)

Lemma selected_above (df : DataFrame) (X_int X_final : Q) :
  Forall (fun x => X_final < x) (col_X df) ->
  selected df X_int X_final = [].
Proof.
  induction df as [|s df IH]; intros H; [reflexivity|].
  inversion H as [|? ? Hs Hdf]; subst.
  unfold selected in *. cbn [filter].
  destruct (in_range X_int X_final (fst s)) eqn:E.
  - apply in_range_spec in E. lra.
  - now apply IH.
Qed.

Lemma selected_point_interval (df : DataFrame) (X_int X_final : Q) :
  strictly_increasing (col_X df) -> X_int == X_final ->
  (length (selected df X_int X_final) <= 1)%nat.
Proof.
  intros Hs Heq. induction df as [|s df IH]; [simpl; lia|].
  inversion Hs as [|? ? Hs' Hall]; subst.
  unfold selected in *. cbn [filter].
  destruct (in_range X_int X_final (fst s)) eqn:E.
  - apply in_range_spec in E.
    fold (selected df X_int X_final).
    rewrite (selected_above df X_int X_final); [simpl; lia|].
    eapply Forall_impl; [|exact Hall]. cbv beta. intros x Hx. lra.
  - now apply IH.
Qed.

(** With [X_int = X_final] a strictly increasing table keeps at most one
    sample, and [pfr_volume] takes the warning branch. *)
Lemma pfr_volume_point_interval (df : DataFrame) (FA0 X_int X_final : Q) :
  strictly_increasing (col_X df) -> X_int == X_final ->
  pfr_volume df FA0 X_int X_final = Err CheckRangeWarning.
Proof.
  intros Hs Heq. rewrite pfr_volume_selected. cbv zeta.
  pose proof (selected_point_interval df X_int X_final Hs Heq) as Hlen.
  assert (E : (1 <? length (selected df X_int X_final))%nat = false)
    by (apply Nat.ltb_ge; lia).
  now rewrite E.
Qed.

(** ** The documented scenario *)

(** C2: on the table X = [0.0, 0.5, 1.0], rA = [0.01, 0.005, 0.0025] with
    FA0 = 1.0, X_int = 0.5 and X_final = 1.0, [interpolate_rate] at 0.5
    returns 0.005, [cstr_volume] returns 100 and [pfr_volume] returns
    150. *)
Theorem levenspiel_scenario :
  build_table [0.0; 0.5; 1.0] [0.01; 0.005; 0.0025] = (false, scenario_table)
  /\ interpolate_rate scenario_table 0.5 = Ok 0.005
  /\ feq (cstr_volume 1.0 0.5 0.005) (Fin 100)
  /\ (exists V, pfr_volume scenario_table 1.0 0.5 1.0 = Ok (Fin V)
                /\ V == 150)
  /\ (exists V_cstr V_pfr,
         levenspiel [0.0; 0.5; 1.0] [0.01; 0.005; 0.0025] 1.0 0.5 1.0
         = Ok [St_write_cstr 0.5 (Fin V_cstr); St_write_pfr 0.5 1.0 (Fin V_pfr)]
         /\ V_cstr == 100 /\ V_pfr == 150).
Proof.
  split; [reflexivity|]. split; [reflexivity|]. split; [reflexivity|].
  split.
  - eexists. split; [vm_compute; reflexivity|reflexivity].
  - do 2 eexists. split; [vm_compute; reflexivity|].
    split; reflexivity.
Qed.

(** ** The CSTR stage *)

(** C3, as the code has it: [cstr_volume] is [FA0 * X_int / rate] for every
    rate other than zero, negative rates included, and at rate zero the
    division gives a non-finite value; no error is raised. *)
Theorem cstr_volume_formula (FA0 X_int rate_at_X_int : Q) :
  (~ rate_at_X_int == 0 ->
   exists V, cstr_volume FA0 X_int rate_at_X_int = Fin V
             /\ V == FA0 * X_int / rate_at_X_int)
  /\ (rate_at_X_int == 0 -> cstr_volume FA0 X_int rate_at_X_int = NonFinite).
Proof.
  unfold cstr_volume, np_divide. split; intros H.
  - destruct (Qeq_bool rate_at_X_int 0) eqn:E.
    + apply Qeq_bool_eq in E. contradiction.
    + eexists. split; reflexivity.
  - now rewrite (Qeq_eq_bool _ _ H).
Qed.

Lemma cstr_volume_formula_witness :
  (exists V, cstr_volume 1.0 0.5 0.005 = Fin V /\ V == 1.0 * 0.5 / 0.005)
  /\ cstr_volume 1.0 0.5 0 = NonFinite.
Proof.
  split.
  - apply (proj1 (cstr_volume_formula 1.0 0.5 0.005)). intros H. discriminate H.
  - apply (proj2 (cstr_volume_formula 1.0 0.5 0)). reflexivity.
Defined.

(** C3 as stated fails: a negative rate gives a finite, negative volume,
    which the application writes like any other. *)
Lemma cstr_volume_negative_rate :
  - 0.005 <= 0
  /\ (exists V, cstr_volume 1.0 0.5 (- 0.005) = Fin V /\ V == - 100)
  /\ (exists V_cstr V_pfr,
         levenspiel [0.5; 0.9] [- 0.005; - 0.005] 1.0 0.5 0.9
         = Ok [St_write_cstr 0.5 (Fin V_cstr); St_write_pfr 0.5 0.9 (Fin V_pfr)]
         /\ V_cstr == - 100 /\ V_pfr == - 80).
Proof.
  split; [discriminate|]. split.
  - eexists. split; [vm_compute; reflexivity|reflexivity].
  - do 2 eexists. split; [vm_compute; reflexivity|].
    split; reflexivity.
Qed.

(** ** Tables of fewer than two samples *)

(** C5, as the code has it: of the tables with fewer than two samples only
    the empty one makes [interpolate_rate] fail; a table of one sample
    answers that sample's rate at every X. *)
Theorem interpolate_rate_small_table (df : DataFrame) (X : Q) :
  (length df < 2)%nat ->
  (df = [] /\ interpolate_rate df X = Err ValueError)
  \/ (exists x r, df = [(x, r)] /\ interpolate_rate df X = Ok r).
Proof.
  intros Hlen. destruct df as [|[x r] [|s df]]; cbn [length] in Hlen.
  - left. split; reflexivity.
  - right. exists x, r. split; [reflexivity|apply interpolate_rate_single].
  - lia.
Qed.

Lemma interpolate_rate_small_table_witness :
  (length fallback_df < 2)%nat
  /\ ((fallback_df = [] /\ interpolate_rate fallback_df 0.7 = Err ValueError)
      \/ (exists x r, fallback_df = [(x, r)]
                      /\ interpolate_rate fallback_df 0.7 = Ok r)).
Proof.
  assert (H : (length fallback_df < 2)%nat) by (simpl; lia).
  split; [exact H|].
  exact (interpolate_rate_small_table fallback_df 0.7 H).
Defined.

(** C5 as stated fails: the one-sample table that replaces an unreadable
    input is interpolated without failure. *)
Lemma interpolate_rate_fallback_table :
  (length fallback_df < 2)%nat
  /\ interpolate_rate fallback_df 0.3 = Ok 0.001
  /\ levenspiel [0.0; 0.5] [0.01] 1.0 0.3 0.8
     = Ok [St_error_parsing; St_warning_range].
Proof.
  split; [simpl; lia|]. split; reflexivity.
Qed.

(** ** Construction of the table *)

(** C6, as the code has it: construction only compares the two lengths.
    Sequences of equal length are stored as they are, in the given order;
    sequences of different lengths are reported and replaced by the
    fallback table. *)
Theorem build_table_keeps_rows (X_vals rA_vals : list Q) :
  (length X_vals = length rA_vals ->
   exists df, build_table X_vals rA_vals = (false, df)
              /\ col_X df = X_vals /\ col_rA df = rA_vals)
  /\ (length X_vals <> length rA_vals ->
      build_table X_vals rA_vals = (true, fallback_df)).
Proof.
  unfold build_table, pd_DataFrame. split; intros H.
  - rewrite H, Nat.eqb_refl. eexists. split; [reflexivity|].
    unfold col_X, col_rA. split.
    + clear - H. revert rA_vals H.
      induction X_vals as [|x xs IH]; intros [|r rs] H; cbn in *;
        try discriminate; [reflexivity|].
      f_equal. apply IH. congruence.
    + clear - H. revert rA_vals H.
      induction X_vals as [|x xs IH]; intros [|r rs] H; cbn in *;
        try discriminate; [reflexivity|].
      f_equal. apply IH. congruence.
  - apply Nat.eqb_neq in H. now rewrite H.
Qed.

Lemma build_table_keeps_rows_witness :
  (exists df, build_table [0.0; 0.5; 1.0] [0.01; 0.005; 0.0025] = (false, df)
              /\ col_X df = [0.0; 0.5; 1.0]
              /\ col_rA df = [0.01; 0.005; 0.0025])
  /\ build_table [0.0; 0.5] [0.01] = (true, fallback_df).
Proof.
  split.
  - apply (proj1 (build_table_keeps_rows [0.0; 0.5; 1.0] [0.01; 0.005; 0.0025])).
    reflexivity.
  - apply (proj2 (build_table_keeps_rows [0.0; 0.5] [0.01])).
    simpl. lia.
Defined.

(** C6 as stated fails: a repeated X value is accepted and stored. *)
Lemma build_table_accepts_duplicates :
  ~ NoDup [0.5; 0.5]
  /\ build_table [0.5; 0.5] [0.01; 0.02] = (false, [(0.5, 0.01); (0.5, 0.02)])
  /\ ~ strictly_increasing
        (col_X (snd (build_table [0.5; 0.5] [0.01; 0.02]))).
Proof.
  split; [|split; [reflexivity|]].
  - intros H. inversion H as [|? ? Hn _]; subst. apply Hn. now left.
  - cbn. intros H. inversion H as [|? ? _ Hall]; subst.
    inversion Hall as [|? ? Hlt _]; subst. discriminate Hlt.
Qed.

(** * Further properties of the Levenspiel branch *)

(** ** Interpolation between two consecutive samples *)

(** X1: on a table with strictly increasing X, at any X between two
    consecutive samples [(x0, y0)] and [(x1, y1)], bounds included,
    [interpolate_rate] is the value of the straight line through them,
    [y0 + (y1 - y0) * (X - x0) / (x1 - x0)]. *)
Theorem interpolate_rate_linear (df : DataFrame) (i : nat)
        (x0 y0 x1 y1 X : Q) :
  strictly_increasing (col_X df) ->
  nth_error df i = Some (x0, y0) ->
  nth_error df (S i) = Some (x1, y1) ->
  x0 <= X -> X <= x1 ->
  exists r, interpolate_rate df X = Ok r
            /\ r == y0 + (y1 - y0) * (X - x0) / (x1 - x0).
Proof.
  intros Hs H0 H1 Hlo Hhi.
  destruct (nth_error_columns df i x0 y0 H0) as [Hi [Hx0 Hy0]].
  destruct (nth_error_columns df (S i) x1 y1 H1) as [HSi [Hx1 Hy1]].
  destruct (col_lengths df) as [HlenX HlenR].
  assert (Hlen : (2 <= length df)%nat) by lia.
  destruct (interpolate_rate_spec df X Hlen) as [r [Hr Hspec]].
  exists r. split; [exact Hr|].
  assert (Hmono : forall a b, (a < b < length (col_X df))%nat ->
                              nth a (col_X df) 0 < nth b (col_X df) 0)
    by (intros a b; now apply strictly_increasing_nth).
  assert (Hmono' : forall a b, (a <= b < length (col_X df))%nat ->
                               nth a (col_X df) 0 <= nth b (col_X df) 0)
    by (intros a b; now apply strictly_increasing_nth_le).
  assert (Hd : x0 < x1) by (rewrite <- Hx0, <- Hx1; apply Hmono; lia).
  (* the index found by the search is [i] or [i + 1] *)
  assert (Hidx : forall n, (n < length (col_X df))%nat ->
                           nth n (col_X df) 0 <= X ->
                           ((S n < length (col_X df))%nat ->
                            X < nth (S n) (col_X df) 0) ->
                           n = i \/ (n = S i /\ X == x1)).
  { intros n Hn Hle Hup.
    destruct (lt_eq_lt_dec n i) as [[Hlt|Heq]|Hgt].
    - assert (Hc : nth (S n) (col_X df) 0 <= nth i (col_X df) 0)
        by (apply Hmono'; lia).
      assert (Hc' : X < nth (S n) (col_X df) 0) by (apply Hup; lia).
      rewrite Hx0 in Hc. lra.
    - now left.
    - right. destruct (Nat.eq_dec n (S i)) as [->|Hne].
      + split; [reflexivity|]. rewrite Hx1 in Hle. lra.
      + assert (Hc : nth (S i) (col_X df) 0 < nth n (col_X df) 0)
          by (apply Hmono; lia).
        rewrite Hx1 in Hc. lra. }
  destruct Hspec as [Hb Hl|Ha|n Hn Hle Hup Hor|n Hn Hle Hup Hne].
  - rewrite hd_nth in Hb.
    assert (Hc : nth 0 (col_X df) 0 <= nth i (col_X df) 0)
      by (apply Hmono'; lia).
    rewrite Hx0 in Hc. lra.
  - rewrite last_nth in Ha.
    assert (Hc : nth (S i) (col_X df) 0
                 <= nth (length (col_X df) - 1) (col_X df) 0)
      by (apply Hmono'; lia).
    rewrite Hx1 in Hc. lra.
  - destruct (Hidx n Hn Hle Hup) as [->|[-> HX]].
    + destruct Hor as [Hor|Hor]; [lia|].
      rewrite Hy0. rewrite Hx0 in Hor. rewrite <- Hor. field. lra.
    + rewrite Hy1. rewrite HX. field. lra.
  - assert (Hn' : (n < length (col_X df))%nat) by lia.
    destruct (Hidx n Hn' Hle (fun _ => Hup)) as [->|[-> HX]].
    + rewrite Hx0, Hy0, Hx1, Hy1. field. lra.
    + exfalso. apply Hne. rewrite Hx1. now symmetry.
Qed.

Lemma interpolate_rate_linear_witness :
  strictly_increasing (col_X scenario_table)
  /\ nth_error scenario_table 0 = Some (0.0, 0.01)
  /\ nth_error scenario_table 1 = Some (0.5, 0.005)
  /\ 0.0 <= 0.25 /\ 0.25 <= 0.5
  /\ exists r, interpolate_rate scenario_table 0.25 = Ok r
               /\ r == 0.01 + (0.005 - 0.01) * (0.25 - 0.0) / (0.5 - 0.0).
Proof.
  assert (H1 : strictly_increasing (col_X scenario_table))
    by solve_increasing.
  assert (H2 : nth_error scenario_table 0 = Some (0.0, 0.01)) by reflexivity.
  assert (H3 : nth_error scenario_table 1 = Some (0.5, 0.005)) by reflexivity.
  assert (H4 : 0.0 <= 0.25) by discriminate.
  assert (H5 : 0.25 <= 0.5) by discriminate.
  split; [exact H1|]. split; [exact H2|]. split; [exact H3|].
  split; [exact H4|]. split; [exact H5|].
  exact (interpolate_rate_linear scenario_table 0 0.0 0.01 0.5 0.005 0.25
                                 H1 H2 H3 H4 H5).
Defined.

(** ** What the branch shows *)

Lemma pfr_volume_outcomes (df : DataFrame) (FA0 X_int X_final : Q) :
  (exists V, pfr_volume df FA0 X_int X_final = Ok V)
  \/ pfr_volume df FA0 X_int X_final = Err CheckRangeWarning.
Proof.
  rewrite pfr_volume_selected. cbv zeta.
  destruct (1 <? length (selected df X_int X_final))%nat.
  - left. eexists. reflexivity.
  - now right.
Qed.

Lemma pfr_volume_one_row (s : Q * Q) (FA0 X_int X_final : Q) :
  pfr_volume [s] FA0 X_int X_final = Err CheckRangeWarning.
Proof.
  unfold pfr_volume. cbn.
  now destruct (in_range X_int X_final (fst s)).
Qed.

(** X2: when the two rows do not have the same number of values, the
    branch shows the parsing error and then, whatever FA0, X_int and
    X_final are, only the range warning: no volume is written from the
    fallback table. *)
Theorem levenspiel_after_parse_failure (X_vals rA_vals : list Q)
        (FA0 X_int X_final : Q) :
  length X_vals <> length rA_vals ->
  levenspiel X_vals rA_vals FA0 X_int X_final
  = Ok [St_error_parsing; St_warning_range].
Proof.
  intros Hne. unfold levenspiel, build_table, pd_DataFrame.
  apply Nat.eqb_neq in Hne. rewrite Hne.
  unfold fallback_df. rewrite interpolate_rate_single. cbn [bind].
  now rewrite pfr_volume_one_row.
Qed.

Lemma levenspiel_after_parse_failure_witness :
  length [0.0; 0.1; 0.2] <> length [0.0053; 0.0052]
  /\ levenspiel [0.0; 0.1; 0.2] [0.0053; 0.0052] 1.0 0.3 0.8
     = Ok [St_error_parsing; St_warning_range].
Proof.
  assert (H : length [0.0; 0.1; 0.2] <> length [0.0053; 0.0052])
    by (simpl; lia).
  split; [exact H|].
  exact (levenspiel_after_parse_failure [0.0; 0.1; 0.2] [0.0053; 0.0052]
                                        1.0 0.3 0.8 H).
Defined.

(** X3: the branch lets an exception escape only when both rows are empty
    (the interpolation then has no sample point).  Otherwise it shows,
    after the parsing error if there was one, either the range warning
    alone or the two volumes together. *)
Theorem levenspiel_outcomes (X_vals rA_vals : list Q) (FA0 X_int X_final : Q) :
  (X_vals = [] /\ rA_vals = [] ->
   levenspiel X_vals rA_vals FA0 X_int X_final = Err ValueError)
  /\ (~ (X_vals = [] /\ rA_vals = []) ->
      exists shown,
        (shown = [] \/ shown = [St_error_parsing])
        /\ (levenspiel X_vals rA_vals FA0 X_int X_final
            = Ok (shown ++ [St_warning_range])
            \/ exists V_cstr V_pfr,
                levenspiel X_vals rA_vals FA0 X_int X_final
                = Ok (shown ++ [St_write_cstr X_int V_cstr;
                                St_write_pfr X_int X_final V_pfr]))).
Proof.
  split.
  - intros [-> ->]. reflexivity.
  - intros Hne.
    destruct (Nat.eq_dec (length X_vals) (length rA_vals)) as [Heq|Hdiff].
    + exists []. split; [now left|].
      unfold levenspiel, build_table, pd_DataFrame.
      rewrite Heq, Nat.eqb_refl.
      assert (Hdf : combine X_vals rA_vals <> []).
      { destruct X_vals as [|x xs], rA_vals as [|r rs]; cbn in *;
          try discriminate. exfalso. now apply Hne. }
      destruct (interpolate_rate_total _ X_int Hdf) as [r Hr].
      rewrite Hr. cbn [bind].
      destruct (pfr_volume_outcomes (combine X_vals rA_vals) FA0 X_int X_final)
        as [[V HV]|HW]; [rewrite HV|rewrite HW].
      * right. eexists. eexists. reflexivity.
      * now left.
    + exists [St_error_parsing]. split; [now right|]. left.
      now apply levenspiel_after_parse_failure.
Qed.

Lemma levenspiel_outcomes_witness :
  levenspiel [] [] 1.0 0.3 0.8 = Err ValueError
  /\ exists shown,
      (shown = [] \/ shown = [St_error_parsing])
      /\ (levenspiel [0.0; 0.5; 1.0] [0.01; 0.005; 0.0025] 1.0 0.5 1.0
          = Ok (shown ++ [St_warning_range])
          \/ exists V_cstr V_pfr,
              levenspiel [0.0; 0.5; 1.0] [0.01; 0.005; 0.0025] 1.0 0.5 1.0
              = Ok (shown ++ [St_write_cstr 0.5 V_cstr;
                              St_write_pfr 0.5 1.0 V_pfr])).
Proof.
  split.
  - apply (proj1 (levenspiel_outcomes [] [] 1.0 0.3 0.8)).
    split; reflexivity.
  - apply (proj2 (levenspiel_outcomes [0.0; 0.5; 1.0] [0.01; 0.005; 0.0025]
                                      1.0 0.5 1.0)).
    intros [H _]. discriminate H.
Defined.

(** ** Scaling with the feed *)

(** X4, in exact arithmetic: both volumes are proportional to the molar
    flow rate: with [c * FA0] in place of [FA0], [cstr_volume] and
    [pfr_volume] give [c] times what they give with [FA0] (and
    [pfr_volume] the same warning).  In binary64 the two sides are rounded
    apart and can differ in their last digits. *)
Theorem volumes_scale_with_feed (df : DataFrame)
        (c FA0 X_int X_final rate_at_X_int : Q) :
  feq (cstr_volume (c * FA0) X_int rate_at_X_int)
      (fmul (Fin c) (cstr_volume FA0 X_int rate_at_X_int))
  /\ result_feq (pfr_volume df (c * FA0) X_int X_final)
                (V <- pfr_volume df FA0 X_int X_final ;; Ok (fmul (Fin c) V)).
Proof.
  split.
  - unfold cstr_volume, np_divide.
    destruct (Qeq_bool rate_at_X_int 0); cbn; [exact I|].
    unfold Qdiv. ring.
  - rewrite !pfr_volume_selected. cbv zeta.
    destruct (1 <? length (selected df X_int X_final))%nat; cbn; [|reflexivity].
    destruct (np_trapz _ _); cbn; [ring|exact I].
Qed.

(** ** Splitting the conversion range at a sample *)

Lemma split_at_sample (df : DataFrame) (s : Q * Q) :
  strictly_increasing (col_X df) -> In s df ->
  exists pre post,
    df = pre ++ s :: post
    /\ Forall (fun p => fst p < fst s) pre
    /\ Forall (fun p => fst s < fst p) post.
Proof.
  induction df as [|a df IH]; intros Hs Hin; [contradiction|].
  inversion Hs as [|? ? Hs' Hall]; subst.
  destruct Hin as [->|Hin].
  - exists [], df. split; [reflexivity|]. split; [constructor|].
    unfold col_X in Hall. rewrite Forall_forall in *.
    intros p Hp. apply Hall, in_map, Hp.
  - destruct (IH Hs' Hin) as [pre [post [-> [Hpre Hpost]]]].
    exists (a :: pre), post. split; [reflexivity|]. split; [|exact Hpost].
    constructor; [|exact Hpre].
    rewrite Forall_forall in Hall. apply Hall.
    unfold col_X. apply in_map. apply in_or_app. right. now left.
Qed.

Lemma selected_app (l1 l2 : DataFrame) (X_int X_final : Q) :
  selected (l1 ++ l2) X_int X_final
  = selected l1 X_int X_final ++ selected l2 X_int X_final.
Proof. unfold selected. apply filter_app. Qed.

Lemma selected_ext (l : DataFrame) (a b a' b' : Q) :
  Forall (fun p => in_range a b (fst p) = in_range a' b' (fst p)) l ->
  selected l a b = selected l a' b'.
Proof.
  intros H. unfold selected. apply filter_ext_in.
  rewrite Forall_forall in H. exact H.
Qed.

Lemma selected_below (l : DataFrame) (X_int X_final : Q) :
  Forall (fun p => fst p < X_int) l -> selected l X_int X_final = [].
Proof.
  induction l as [|s l IH]; intros H; [reflexivity|].
  inversion H as [|? ? Hs Hl]; subst.
  unfold selected in *. cbn [filter].
  destruct (in_range X_int X_final (fst s)) eqn:E.
  - apply in_range_spec in E. lra.
  - now apply IH.
Qed.

Lemma in_range_true (a b x : Q) : a <= x -> x <= b -> in_range a b x = true.
Proof. intros H1 H2. now apply in_range_spec. Qed.

Lemma in_range_eq (a b a' b' x : Q) :
  (a <= x <-> a' <= x) -> (x <= b <-> x <= b') ->
  in_range a b x = in_range a' b' x.
Proof.
  intros Ha Hb. apply eq_true_iff_eq. rewrite !in_range_spec. tauto.
Qed.

(** The three selections around a sample whose X is the middle bound. *)
Lemma selected_split (df : DataFrame) (s : Q * Q) (a m c : Q) :
  strictly_increasing (col_X df) -> In s df -> fst s == m ->
  a <= m -> m <= c ->
  exists L1 L2,
    selected df a m = L1 ++ [s]
    /\ selected df m c = s :: L2
    /\ selected df a c = L1 ++ s :: L2.
Proof.
  intros Hs Hin Hm Ham Hmc.
  destruct (split_at_sample df s Hs Hin) as [pre [post [-> [Hpre Hpost]]]].
  exists (selected pre a m), (selected post m c).
  assert (Hone : forall u v, u <= m -> m <= v -> selected [s] u v = [s]).
  { intros u v Hu Hv. unfold selected. cbn [filter].
    rewrite in_range_true; [reflexivity| |]; lra. }
  change (pre ++ s :: post) with (pre ++ [s] ++ post).
  rewrite !selected_app.
  rewrite (Hone a m Ham (Qle_refl m)), (Hone m c (Qle_refl m) Hmc),
    (Hone a c Ham Hmc).
  rewrite (selected_above post a m), (selected_below pre m c).
  - rewrite (selected_ext pre a c a m), (selected_ext post a c m c).
    + rewrite app_nil_r. repeat split; reflexivity.
    + eapply Forall_impl; [|exact Hpost]. cbv beta. intros p Hp.
      apply in_range_eq; split; intros; lra.
    + eapply Forall_impl; [|exact Hpre]. cbv beta. intros p Hp.
      apply in_range_eq; split; intros; lra.
  - eapply Forall_impl; [|exact Hpre]. cbv beta. intros p Hp. lra.
  - unfold col_X. apply Forall_map.
    eapply Forall_impl; [|exact Hpost]. cbv beta. intros p Hp. lra.
Qed.

Lemma trapezoid_cons2 (p q : Q * Q) (l : list (Q * Q)) :
  trapezoid (p :: q :: l)
  = (fst q - fst p) * (snd p + snd q) / 2 + trapezoid (q :: l).
Proof. destruct p, q. reflexivity. Qed.

Lemma trapezoid_app (l1 l2 : list (Q * Q)) (p : Q * Q) :
  trapezoid (l1 ++ p :: l2) == trapezoid (l1 ++ [p]) + trapezoid (p :: l2).
Proof.
  induction l1 as [|q l1 IH].
  - cbn [app]. destruct p. cbn [trapezoid]. lra.
  - destruct l1 as [|q' l1].
    + cbn [app] in *. rewrite !trapezoid_cons2.
      destruct p as [px py]. cbn [trapezoid fst snd]. lra.
    + change ((q :: q' :: l1) ++ p :: l2) with (q :: q' :: (l1 ++ p :: l2)).
      change ((q :: q' :: l1) ++ [p]) with (q :: q' :: (l1 ++ [p])).
      rewrite !trapezoid_cons2.
      change (q' :: (l1 ++ p :: l2)) with ((q' :: l1) ++ p :: l2).
      change (q' :: (l1 ++ [p])) with ((q' :: l1) ++ [p]).
      rewrite IH. lra.
Qed.

Lemma positive_rates_nonzero (df : DataFrame) :
  positive_rates df -> Forall (fun r => ~ r == 0) (col_rA df).
Proof.
  intros H. eapply Forall_impl; [|exact H]. cbv beta. intros r Hr Hz. lra.
Qed.

(** [pfr_volume] on a table of positive rates: the warning, or [FA0] times
    the trapezoid sum of the selected points. *)
Lemma pfr_volume_value (df : DataFrame) (FA0 X_int X_final : Q) (V : float64) :
  positive_rates df ->
  pfr_volume df FA0 X_int X_final = Ok V ->
  (2 <= length (selected df X_int X_final))%nat
  /\ exists S, V = Fin (FA0 * S)
               /\ S == trapezoid
                         (levenspiel_points (selected df X_int X_final)).
Proof.
  intros Hpos. rewrite pfr_volume_selected. cbv zeta.
  destruct (1 <? length (selected df X_int X_final))%nat eqn:E;
    [|discriminate].
  apply Nat.ltb_lt in E. intros HV. split; [lia|].
  destruct (np_trapz_finite (selected df X_int X_final)) as [S [HS HSeq]].
  { apply selected_rates, positive_rates_nonzero, Hpos. }
  rewrite HS in HV. cbn [fmul] in HV. injection HV as <-.
  exists S. split; [reflexivity|exact HSeq].
Qed.

(** X5, in exact arithmetic: on a table with strictly increasing X and
    positive rates, when X_mid is the X of a sample and both
    [[X_int, X_mid]] and [[X_mid, X_final]] give a volume,
    [[X_int, X_final]] gives the sum of the two.  In binary64 the sum of
    the two rounded volumes can differ from the third in its last
    digits. *)
Theorem pfr_volume_additive (df : DataFrame) (s : Q * Q)
        (FA0 X_int X_mid X_final : Q) (V1 V2 : Q) :
  strictly_increasing (col_X df) ->
  positive_rates df ->
  In s df -> fst s == X_mid ->
  X_int <= X_mid -> X_mid <= X_final ->
  pfr_volume df FA0 X_int X_mid = Ok (Fin V1) ->
  pfr_volume df FA0 X_mid X_final = Ok (Fin V2) ->
  exists V, pfr_volume df FA0 X_int X_final = Ok (Fin V) /\ V == V1 + V2.
Proof.
  intros Hs Hpos Hin Hm Ham Hmc H1 H2.
  destruct (selected_split df s X_int X_mid X_final Hs Hin Hm Ham Hmc)
    as [L1 [L2 [E1 [E2 E]]]].
  destruct (pfr_volume_value _ _ _ _ _ Hpos H1) as [Hlen1 [S1 [HV1 HS1]]].
  destruct (pfr_volume_value _ _ _ _ _ Hpos H2) as [Hlen2 [S2 [HV2 HS2]]].
  injection HV1 as ->. injection HV2 as ->.
  rewrite E1 in HS1, Hlen1. rewrite E2 in HS2.
  rewrite pfr_volume_selected. cbv zeta.
  assert (Hlen : (1 <? length (selected df X_int X_final))%nat = true).
  { apply Nat.ltb_lt. rewrite E. rewrite length_app in *. cbn [length] in *.
    lia. }
  rewrite Hlen.
  destruct (np_trapz_finite (selected df X_int X_final)) as [S [HS HSeq]].
  { apply selected_rates, positive_rates_nonzero, Hpos. }
  rewrite HS. cbn [fmul]. eexists. split; [reflexivity|].
  rewrite HSeq, E, HS1, HS2.
  unfold levenspiel_points. rewrite !map_app. cbn [map].
  rewrite trapezoid_app. ring.
Qed.

Lemma pfr_volume_additive_witness :
  strictly_increasing (col_X scenario_table)
  /\ positive_rates scenario_table
  /\ In (0.5, 0.005) scenario_table
  /\ pfr_volume scenario_table 1.0 0.0 0.5 = Ok (Fin 75.0000)
  /\ pfr_volume scenario_table 1.0 0.5 1.0 = Ok (Fin (37500000 # 250000))
  /\ exists V, pfr_volume scenario_table 1.0 0.0 1.0 = Ok (Fin V)
               /\ V == 75.0000 + (37500000 # 250000).
Proof.
  assert (H1 : strictly_increasing (col_X scenario_table))
    by solve_increasing.
  assert (H2 : positive_rates scenario_table)
    by (repeat constructor; reflexivity).
  assert (H3 : In (0.5, 0.005) scenario_table) by (right; left; reflexivity).
  assert (H4 : fst (0.5, 0.005) == 0.5) by reflexivity.
  assert (H5 : 0.0 <= 0.5) by discriminate.
  assert (H6 : 0.5 <= 1.0) by discriminate.
  assert (H7 : pfr_volume scenario_table 1.0 0.0 0.5 = Ok (Fin 75.0000))
    by (vm_compute; reflexivity).
  assert (H8 : pfr_volume scenario_table 1.0 0.5 1.0
               = Ok (Fin (37500000 # 250000)))
    by (vm_compute; reflexivity).
  split; [exact H1|]. split; [exact H2|]. split; [exact H3|].
  split; [exact H7|]. split; [exact H8|].
  exact (pfr_volume_additive scenario_table (0.5, 0.005) 1.0 0.0 0.5 1.0
                             75.0000 (37500000 # 250000)
                             H1 H2 H3 H4 H5 H6 H7 H8).
Defined.

(** ** Sign of the volumes *)

Lemma selected_increasing (df : DataFrame) (X_int X_final : Q) :
  strictly_increasing (col_X df) ->
  strictly_increasing (col_X (selected df X_int X_final)).
Proof.
  unfold strictly_increasing, col_X, selected.
  induction df as [|s df IH]; intros Hs; [constructor|].
  inversion Hs as [|? ? Hs' Hall]; subst.
  cbn [filter]. destruct (in_range X_int X_final (fst s)).
  - cbn [map]. constructor; [now apply IH|].
    rewrite Forall_forall in *. intros x Hx. apply Hall.
    apply in_map_iff in Hx as [p [<- Hp]].
    apply in_map. apply filter_In in Hp. tauto.
  - now apply IH.
Qed.

Lemma trapezoid_nonneg (pts : list (Q * Q)) :
  StronglySorted Qlt (map fst pts) ->
  Forall (fun p => 0 < snd p) pts ->
  0 <= trapezoid pts.
Proof.
  induction pts as [|p pts IH]; intros Hs Hpos; [cbn; lra|].
  destruct pts as [|q pts]; [destruct p; cbn; lra|].
  rewrite trapezoid_cons2.
  inversion Hs as [|? ? Hs' Hall]; subst.
  inversion Hpos as [|? ? Hp Hpos']; subst.
  specialize (IH Hs' Hpos').
  inversion Hall as [|? ? Hpq _]; subst.
  inversion Hpos' as [|? ? Hq _]; subst.
  assert (0 <= (fst q - fst p) * (snd p + snd q)) by nra.
  unfold Qdiv. change (/ 2) with (1 # 2). lra.
Qed.

Lemma trapezoid_pos (pts : list (Q * Q)) :
  StronglySorted Qlt (map fst pts) ->
  Forall (fun p => 0 < snd p) pts ->
  (2 <= length pts)%nat ->
  0 < trapezoid pts.
Proof.
  intros Hs Hpos Hlen.
  destruct pts as [|p [|q pts]]; cbn [length] in Hlen; try lia.
  rewrite trapezoid_cons2.
  inversion Hs as [|? ? Hs' Hall]; subst.
  inversion Hpos as [|? ? Hp Hpos']; subst.
  pose proof (trapezoid_nonneg (q :: pts) Hs' Hpos') as Hrest.
  inversion Hall as [|? ? Hpq _]; subst.
  inversion Hpos' as [|? ? Hq _]; subst.
  assert (0 < (fst q - fst p) * (snd p + snd q)) by nra.
  unfold Qdiv. change (/ 2) with (1 # 2). lra.
Qed.

Lemma levenspiel_points_positive (df : DataFrame) :
  positive_rates df ->
  map fst (levenspiel_points df) = col_X df
  /\ Forall (fun p => 0 < snd p) (levenspiel_points df).
Proof.
  intros Hpos. unfold levenspiel_points, col_X. split.
  - rewrite map_map. reflexivity.
  - unfold positive_rates, col_rA in Hpos.
    rewrite Forall_map in *.
    eapply Forall_impl; [|exact Hpos]. cbv beta. intros s Hs. cbn [snd].
    unfold Qdiv. rewrite Qmult_1_l. now apply Qinv_lt_0_compat.
Qed.

(** What [np_interp] returns lies between any two bounds of the stored
    values. *)
Lemma interp_spec_bounds (x : Q) (xp fp : list Q) (r m M : Q) :
  interp_spec x xp fp r ->
  length fp = length xp -> (2 <= length xp)%nat ->
  (forall y, In y fp -> m <= y /\ y <= M) ->
  m <= r /\ r <= M.
Proof.
  intros Hs Hlen H2 Hb.
  assert (Hin : forall n, (n < length xp)%nat ->
                          m <= nth n fp 0 /\ nth n fp 0 <= M).
  { intros n Hn. apply Hb, nth_In. lia. }
  destruct Hs as [Hl Hl'|Ha|n Hn Hle Hup Hor|n Hn Hle Hup Hne].
  - rewrite hd_nth. apply Hin. lia.
  - rewrite last_nth. apply Hin. lia.
  - apply Hin. lia.
  - destruct (Hin n) as [Hm0 HM0]; [lia|].
    destruct (Hin (S n)) as [Hm1 HM1]; [lia|].
    now apply segment_bounds.
Qed.

Lemma Qlist_min_positive (l : list Q) :
  l <> [] -> Forall (fun r => 0 < r) l -> 0 < Qlist_min l.
Proof.
  intros Hne Hpos.
  destruct (Qlist_min_attained l Hne) as [y [Hy Hey]].
  rewrite Forall_forall in Hpos. specialize (Hpos y Hy). lra.
Qed.

(** X6, in exact arithmetic: on a table with strictly increasing X and
    positive rates, with a positive feed and a positive intermediate
    conversion, whenever at least two samples lie in [[X_int, X_final]]
    the interpolated rate and both volumes are positive.  In binary64 the
    rounding of [slope * (x - x_j) + y_j] can give the rate 0.0 between
    two positive rates, and the CSTR volume is then not finite. *)
Theorem levenspiel_positive_volumes (df : DataFrame) (FA0 X_int X_final : Q) :
  strictly_increasing (col_X df) ->
  positive_rates df ->
  0 < FA0 -> 0 < X_int ->
  (2 <= length (selected df X_int X_final))%nat ->
  exists r V_cstr V_pfr,
    interpolate_rate df X_int = Ok r /\ 0 < r
    /\ cstr_volume FA0 X_int r = Fin V_cstr /\ 0 < V_cstr
    /\ pfr_volume df FA0 X_int X_final = Ok (Fin V_pfr) /\ 0 < V_pfr.
Proof.
  intros Hs Hpos HF HX Hsel.
  assert (Hlen : (2 <= length df)%nat).
  { pose proof (filter_length_le
                  (fun s => in_range X_int X_final (fst s)) df) as Hle.
    unfold selected in Hsel. lia. }
  destruct (col_lengths df) as [HlenX HlenR].
  destruct (interpolate_rate_spec df X_int Hlen) as [r [Hr Hspec]].
  assert (Hrpos : 0 < r).
  { assert (Hmin : 0 < Qlist_min (col_rA df)).
    { apply Qlist_min_positive; [|exact Hpos].
      intros E. rewrite E in HlenR. cbn in HlenR. lia. }
    destruct (interp_spec_bounds X_int (col_X df) (col_rA df) r
                (Qlist_min (col_rA df)) (Qlist_max (col_rA df)) Hspec)
      as [Hlo _]; [congruence|lia|apply Qlist_bounds|].
    lra. }
  exists r, (FA0 * X_int / r).
  assert (Hok : (1 <? length (selected df X_int X_final))%nat = true)
    by (apply Nat.ltb_lt; lia).
  destruct (np_trapz_finite (selected df X_int X_final)) as [S [HS HSeq]].
  { apply selected_rates, positive_rates_nonzero, Hpos. }
  exists (FA0 * S).
  split; [exact Hr|]. split; [exact Hrpos|].
  split; [unfold cstr_volume; apply np_divide_nonzero; lra|].
  split.
  { apply Qlt_shift_div_l; [exact Hrpos|]. nra. }
  split.
  { rewrite pfr_volume_selected. cbv zeta. now rewrite Hok, HS. }
  assert (HSpos : 0 < S).
  { rewrite HSeq.
    destruct (levenspiel_points_positive (selected df X_int X_final))
      as [Hfst Hsnd].
    { unfold positive_rates. apply selected_rates, Hpos. }
    apply trapezoid_pos.
    - rewrite Hfst. now apply selected_increasing.
    - exact Hsnd.
    - unfold levenspiel_points. now rewrite length_map. }
  nra.
Qed.

Lemma levenspiel_positive_volumes_witness :
  strictly_increasing (col_X scenario_table)
  /\ positive_rates scenario_table
  /\ 0 < 1.0 /\ 0 < 0.5
  /\ (2 <= length (selected scenario_table 0.5 1.0))%nat
  /\ exists r V_cstr V_pfr,
      interpolate_rate scenario_table 0.5 = Ok r /\ 0 < r
      /\ cstr_volume 1.0 0.5 r = Fin V_cstr /\ 0 < V_cstr
      /\ pfr_volume scenario_table 1.0 0.5 1.0 = Ok (Fin V_pfr) /\ 0 < V_pfr.
Proof.
  assert (H1 : strictly_increasing (col_X scenario_table))
    by solve_increasing.
  assert (H2 : positive_rates scenario_table)
    by (repeat constructor; reflexivity).
  assert (H3 : 0 < 1.0) by reflexivity.
  assert (H4 : 0 < 0.5) by reflexivity.
  assert (H5 : (2 <= length (selected scenario_table 0.5 1.0))%nat)
    by (vm_compute; lia).
  split; [exact H1|]. split; [exact H2|]. split; [exact H3|].
  split; [exact H4|]. split; [exact H5|].
  exact (levenspiel_positive_volumes scenario_table 1.0 0.5 1.0
                                     H1 H2 H3 H4 H5).
Defined.

(** ** A zero rate among the selected samples *)

Lemma summands_cons2 (y0 y1 : float64) (ys : list float64)
      (x0 x1 : Q) (xs : list Q) :
  map (fun v => fdiv v 2)
      (map2 fmul (map Fin (np_diff (x0 :: x1 :: xs)))
            (map2 fadd (tl (y0 :: y1 :: ys)) (removelast (y0 :: y1 :: ys))))
  = fdiv (fmul (Fin (x1 - x0)) (fadd y1 y0)) 2
    :: map (fun v => fdiv v 2)
         (map2 fmul (map Fin (np_diff (x1 :: xs)))
               (map2 fadd (tl (y1 :: ys)) (removelast (y1 :: ys)))).
Proof. reflexivity. Qed.

Lemma fold_fadd_NonFinite (l : list float64) :
  fold_left fadd l NonFinite = NonFinite.
Proof. induction l as [|a l IH]; [reflexivity|exact IH]. Qed.

Lemma fold_fadd_absorbs (l : list float64) (a : float64) :
  In NonFinite l -> fold_left fadd l a = NonFinite.
Proof.
  revert a. induction l as [|b l IH]; intros a Hin; [contradiction|].
  cbn [fold_left]. destruct Hin as [->|Hin].
  - destruct a; apply fold_fadd_NonFinite.
  - now apply IH.
Qed.

Lemma np_divide_zero (a b : Q) : b == 0 -> np_divide a b = NonFinite.
Proof. intros H. unfold np_divide. now rewrite (Qeq_eq_bool _ _ H). Qed.

Lemma summands_zero_rate (sel : DataFrame) :
  (2 <= length sel)%nat ->
  (exists s, In s sel /\ snd s == 0) ->
  In NonFinite
     (map (fun v => fdiv v 2)
          (map2 fmul (map Fin (np_diff (col_X sel)))
                (map2 fadd (tl (map (np_divide 1) (col_rA sel)))
                      (removelast (map (np_divide 1) (col_rA sel)))))).
Proof.
  induction sel as [|[x0 r0] sel IH]; intros Hlen Hz;
    [cbn in Hlen; lia|].
  destruct sel as [|[x1 r1] sel]; [cbn in Hlen; lia|].
  change (col_X ((x0, r0) :: (x1, r1) :: sel))
    with (x0 :: x1 :: col_X sel).
  change (map (np_divide 1) (col_rA ((x0, r0) :: (x1, r1) :: sel)))
    with (np_divide 1 r0 :: np_divide 1 r1
          :: map (np_divide 1) (col_rA sel)).
  rewrite summands_cons2.
  destruct (Qeq_bool r0 0) eqn:E0.
  { left. apply Qeq_bool_eq in E0. rewrite (np_divide_zero 1 r0 E0).
    now destruct (np_divide 1 r1). }
  destruct (Qeq_bool r1 0) eqn:E1.
  { left. apply Qeq_bool_eq in E1. now rewrite (np_divide_zero 1 r1 E1). }
  right.
  apply Qeq_bool_neq in E0. apply Qeq_bool_neq in E1.
  destruct Hz as [s [[<-|[<-|Hin]] Hs]]; cbn [snd] in Hs;
    [contradiction|contradiction|].
  apply IH.
  - destruct sel; [contradiction|cbn [length]; lia].
  - exists s. split; [now right|exact Hs].
Qed.

(** X7: when at least two samples lie in [[X_int, X_final]] and one of them
    has rate zero, [pfr_volume] does not warn: it returns a non-finite
    volume (numpy's [inf] or [nan]), which the branch writes. *)
Theorem pfr_volume_zero_rate (df : DataFrame) (FA0 X_int X_final : Q) :
  (2 <= length (selected df X_int X_final))%nat ->
  (exists s, In s (selected df X_int X_final) /\ snd s == 0) ->
  pfr_volume df FA0 X_int X_final = Ok NonFinite.
Proof.
  intros Hlen Hz. rewrite pfr_volume_selected. cbv zeta.
  assert (Hok : (1 <? length (selected df X_int X_final))%nat = true)
    by (apply Nat.ltb_lt; lia).
  rewrite Hok. unfold np_trapz, np_sum. cbv zeta.
  rewrite (fold_fadd_absorbs _ _ (summands_zero_rate _ Hlen Hz)).
  reflexivity.
Qed.

Lemma pfr_volume_zero_rate_witness :
  (2 <= length (selected zero_rate_table 0.5 0.9))%nat
  /\ (exists s, In s (selected zero_rate_table 0.5 0.9) /\ snd s == 0)
  /\ pfr_volume zero_rate_table 1.0 0.5 0.9 = Ok NonFinite.
Proof.
  assert (H1 : (2 <= length (selected zero_rate_table 0.5 0.9))%nat)
    by (vm_compute; lia).
  assert (H2 : exists s, In s (selected zero_rate_table 0.5 0.9)
                         /\ snd s == 0).
  { exists (0.7, 0). split; [right; left; reflexivity|reflexivity]. }
  split; [exact H1|]. split; [exact H2|].
  exact (pfr_volume_zero_rate zero_rate_table 1.0 0.5 0.9 H1 H2).
Defined.

(** * The CSTR branch *)

Lemma py_div_nonzero (a b : Q) : ~ b == 0 -> py_div a b = Some (a / b).
Proof.
  intros Hb. unfold py_div.
  destruct (Qeq_bool b 0) eqn:E; [|reflexivity].
  apply Qeq_bool_eq in E. contradiction.
Qed.

Lemma py_div_zero (a b : Q) : b == 0 -> py_div a b = None.
Proof. intros H. unfold py_div. now rewrite (Qeq_eq_bool _ _ H). Qed.

Lemma Qdiv_nonzero (a b : Q) : ~ a == 0 -> ~ b == 0 -> ~ a / b == 0.
Proof.
  intros Ha Hb H.
  assert (E : a == a / b * b) by (field; exact Hb).
  rewrite H in E. apply Ha. rewrite E. ring.
Qed.

Lemma Qle_bool_false (a b : Q) : Qle_bool a b = false <-> b < a.
Proof.
  rewrite <- not_true_iff_false, Qle_bool_iff. split; intros H; lra.
Qed.

(** The branch below conversion one, with no zero among feed, flow and
    rate constant. *)
Lemma cstr_calculation_value (F_A0 X_cstr v0_cstr k_cstr : Q) :
  X_cstr < 1 -> ~ F_A0 == 0 -> ~ v0_cstr == 0 -> ~ k_cstr == 0 ->
  exists V, cstr_calculation F_A0 X_cstr v0_cstr k_cstr = Cstr_write V
            /\ V == v0_cstr * X_cstr / (k_cstr * (1 - X_cstr)).
Proof.
  intros HX HF Hv Hk. unfold cstr_calculation.
  assert (E : Qle_bool 1 X_cstr = false) by now apply Qle_bool_false.
  rewrite E, (py_div_nonzero F_A0 v0_cstr Hv).
  assert (Hd : ~ k_cstr * (F_A0 / v0_cstr) * (1 - X_cstr) == 0).
  { pose proof (Qdiv_nonzero F_A0 v0_cstr HF Hv) as Hc.
    intros H. apply Qmult_integral in H as [H|H]; [|lra].
    apply Qmult_integral in H as [H|H]; contradiction. }
  rewrite (py_div_nonzero _ _ Hd).
  eexists. split; [reflexivity|].
  field. repeat split; try assumption. lra.
Qed.

(** X8, in exact arithmetic: below conversion one and with non-zero feed,
    flow and rate constant, the volume written is
    [v0 * X / (k * (1 - X))]: it does not depend on the molar flow rate
    F_A0, which cancels against C_A0.  In binary64 C_A0 is rounded, so
    that two feeds can give volumes differing in their last digits, and a
    C_A0 that underflows to 0.0 raises instead. *)
Theorem cstr_calculation_feed_independent
        (F_A0 F_A0' X_cstr v0_cstr k_cstr : Q) :
  X_cstr < 1 -> ~ F_A0 == 0 -> ~ F_A0' == 0 ->
  ~ v0_cstr == 0 -> ~ k_cstr == 0 ->
  exists V V',
    cstr_calculation F_A0 X_cstr v0_cstr k_cstr = Cstr_write V
    /\ cstr_calculation F_A0' X_cstr v0_cstr k_cstr = Cstr_write V'
    /\ V == V'
    /\ V == v0_cstr * X_cstr / (k_cstr * (1 - X_cstr)).
Proof.
  intros HX HF HF' Hv Hk.
  destruct (cstr_calculation_value F_A0 X_cstr v0_cstr k_cstr HX HF Hv Hk)
    as [V [HV HVeq]].
  destruct (cstr_calculation_value F_A0' X_cstr v0_cstr k_cstr HX HF' Hv Hk)
    as [V' [HV' HVeq']].
  exists V, V'. repeat split; try assumption.
  now rewrite HVeq, HVeq'.
Qed.

Lemma cstr_calculation_feed_independent_witness :
  0.99 < 1 /\ ~ 5.0 == 0 /\ ~ 2.0 == 0 /\ ~ 10.0 == 0 /\ ~ 0.006 == 0
  /\ exists V V',
      cstr_calculation 5.0 0.99 10.0 0.006 = Cstr_write V
      /\ cstr_calculation 2.0 0.99 10.0 0.006 = Cstr_write V'
      /\ V == V'
      /\ V == 10.0 * 0.99 / (0.006 * (1 - 0.99)).
Proof.
  assert (H1 : 0.99 < 1) by reflexivity.
  assert (H2 : ~ 5.0 == 0) by discriminate.
  assert (H3 : ~ 2.0 == 0) by discriminate.
  assert (H4 : ~ 10.0 == 0) by discriminate.
  assert (H5 : ~ 0.006 == 0) by discriminate.
  split; [exact H1|]. split; [exact H2|]. split; [exact H3|].
  split; [exact H4|]. split; [exact H5|].
  exact (cstr_calculation_feed_independent 5.0 2.0 0.99 10.0 0.006
                                           H1 H2 H3 H4 H5).
Defined.

(** X9, in exact arithmetic: the branch warns exactly when the conversion
    is at least one, and lets [ZeroDivisionError] escape exactly when the
    conversion is below one and the feed, the volumetric flow or the rate
    constant is zero.  The warning is a comparison and is the same in
    binary64; there C_A0 or the divisor can also underflow to 0.0, which
    raises with no zero input. *)
Theorem cstr_calculation_failures (F_A0 X_cstr v0_cstr k_cstr : Q) :
  (cstr_calculation F_A0 X_cstr v0_cstr k_cstr = Cstr_warning
   <-> 1 <= X_cstr)
  /\ (cstr_calculation F_A0 X_cstr v0_cstr k_cstr = Cstr_ZeroDivisionError
      <-> X_cstr < 1 /\ (F_A0 == 0 \/ v0_cstr == 0 \/ k_cstr == 0)).
Proof.
  destruct (Qlt_le_dec X_cstr 1) as [HX|HX].
  - (* below one *)
    assert (E : Qle_bool 1 X_cstr = false) by now apply Qle_bool_false.
    destruct (Qeq_dec F_A0 0) as [HF|HF];
      [|destruct (Qeq_dec v0_cstr 0) as [Hv|Hv];
        [|destruct (Qeq_dec k_cstr 0) as [Hk|Hk]]].
    + assert (R : cstr_calculation F_A0 X_cstr v0_cstr k_cstr
                  = Cstr_ZeroDivisionError).
      { unfold cstr_calculation. rewrite E. unfold py_div at 1.
        destruct (Qeq_bool v0_cstr 0); [reflexivity|].
        rewrite py_div_zero; [reflexivity|]. rewrite HF.
        unfold Qdiv. ring. }
      rewrite R. split; split; try discriminate; try tauto. lra.
    + assert (R : cstr_calculation F_A0 X_cstr v0_cstr k_cstr
                  = Cstr_ZeroDivisionError).
      { unfold cstr_calculation. rewrite E.
        now rewrite (py_div_zero F_A0 v0_cstr Hv). }
      rewrite R. split; split; try discriminate; try tauto. lra.
    + assert (R : cstr_calculation F_A0 X_cstr v0_cstr k_cstr
                  = Cstr_ZeroDivisionError).
      { unfold cstr_calculation. rewrite E.
        rewrite (py_div_nonzero F_A0 v0_cstr Hv).
        rewrite py_div_zero; [reflexivity|]. rewrite Hk. ring. }
      rewrite R. split; split; try discriminate; try tauto. lra.
    + destruct (cstr_calculation_value F_A0 X_cstr v0_cstr k_cstr
                  HX HF Hv Hk) as [V [R _]].
      rewrite R. split; split; try discriminate; try tauto; try lra.
  - assert (R : cstr_calculation F_A0 X_cstr v0_cstr k_cstr = Cstr_warning).
    { unfold cstr_calculation.
      now rewrite (proj2 (Qle_bool_iff 1 X_cstr) HX). }
    rewrite R. split; split; try discriminate; try tauto.
    intros [H _]. lra.
Qed.

(** X10, in exact arithmetic: with positive feed, flow and rate constant
    the volume written is positive and grows strictly with the conversion
    on (0, 1).  In binary64 two conversions one rounding step apart can
    give the same volume, and an underflow of C_A0 raises instead. *)
Theorem cstr_calculation_increasing
        (F_A0 v0_cstr k_cstr X_cstr X_cstr' : Q) :
  0 < F_A0 -> 0 < v0_cstr -> 0 < k_cstr ->
  0 < X_cstr -> X_cstr < X_cstr' -> X_cstr' < 1 ->
  exists V V',
    cstr_calculation F_A0 X_cstr v0_cstr k_cstr = Cstr_write V
    /\ cstr_calculation F_A0 X_cstr' v0_cstr k_cstr = Cstr_write V'
    /\ 0 < V /\ V < V'.
Proof.
  intros HF Hv Hk H0 Hlt H1.
  destruct (cstr_calculation_value F_A0 X_cstr v0_cstr k_cstr)
    as [V [HV HVeq]]; try lra.
  destruct (cstr_calculation_value F_A0 X_cstr' v0_cstr k_cstr)
    as [V' [HV' HVeq']]; try lra.
  exists V, V'. split; [exact HV|]. split; [exact HV'|].
  assert (Ha : 0 < k_cstr * (1 - X_cstr)) by nra.
  assert (Ha' : 0 < k_cstr * (1 - X_cstr')) by nra.
  split.
  - rewrite HVeq. apply Qlt_shift_div_l; [exact Ha|]. nra.
  - assert (Hdiff : V' - V
                    == v0_cstr * (X_cstr' - X_cstr)
                       / (k_cstr * (1 - X_cstr) * (1 - X_cstr'))).
    { rewrite HVeq, HVeq'. field. repeat split; lra. }
    assert (Hpos : 0 < v0_cstr * (X_cstr' - X_cstr)
                       / (k_cstr * (1 - X_cstr) * (1 - X_cstr'))).
    { apply Qlt_shift_div_l; nra. }
    lra.
Qed.

Lemma cstr_calculation_increasing_witness :
  0 < 5.0 /\ 0 < 10.0 /\ 0 < 0.006
  /\ 0 < 0.5 /\ 0.5 < 0.99 /\ 0.99 < 1
  /\ exists V V',
      cstr_calculation 5.0 0.5 10.0 0.006 = Cstr_write V
      /\ cstr_calculation 5.0 0.99 10.0 0.006 = Cstr_write V'
      /\ 0 < V /\ V < V'.
Proof.
  assert (H1 : 0 < 5.0) by reflexivity.
  assert (H2 : 0 < 10.0) by reflexivity.
  assert (H3 : 0 < 0.006) by reflexivity.
  assert (H4 : 0 < 0.5) by reflexivity.
  assert (H5 : 0.5 < 0.99) by reflexivity.
  assert (H6 : 0.99 < 1) by reflexivity.
  split; [exact H1|]. split; [exact H2|]. split; [exact H3|].
  split; [exact H4|]. split; [exact H5|]. split; [exact H6|].
  exact (cstr_calculation_increasing 5.0 10.0 0.006 0.5 0.99
                                     H1 H2 H3 H4 H5 H6).
Defined.

(** * The batch branch *)

Lemma batch_time_value (k X_target : R) :
  (X_target < 1)%R -> k <> 0%R ->
  batch_time k X_target = Batch_write (- ln (1 - X_target) / k)%R.
Proof.
  intros HX Hk. unfold batch_time.
  destruct (Rle_dec 1 X_target) as [H|_]; [Lra.lra|].
  destruct (Req_dec_T k 0) as [H|_]; [contradiction|reflexivity].
Qed.

(** X11: below conversion one and with a non-zero rate constant, the time
    written is the one after which first-order decay reaches the target:
    [1 - exp (- k * t)] is the target conversion. *)
Theorem batch_time_reaches_target (k X_target : R) :
  (X_target < 1)%R -> k <> 0%R ->
  exists t, batch_time k X_target = Batch_write t
            /\ (1 - exp (- k * t))%R = X_target.
Proof.
  intros HX Hk. rewrite (batch_time_value k X_target HX Hk).
  eexists. split; [reflexivity|].
  replace (- k * (- ln (1 - X_target) / k))%R with (ln (1 - X_target))
    by (field; exact Hk).
  rewrite exp_ln; Lra.lra.
Qed.

Lemma batch_time_reaches_target_witness :
  (0.99 < 1)%R /\ 0.23%R <> 0%R
  /\ exists t, batch_time 0.23 0.99 = Batch_write t
               /\ (1 - exp (- (0.23) * t))%R = 0.99%R.
Proof.
  assert (H1 : (0.99 < 1)%R) by Lra.lra.
  assert (H2 : 0.23%R <> 0%R) by Lra.lra.
  split; [exact H1|]. split; [exact H2|].
  exact (batch_time_reaches_target 0.23 0.99 H1 H2).
Defined.

(** X12: with a positive rate constant the time written is positive and
    grows strictly with the target conversion on (0, 1). *)
Theorem batch_time_increasing (k X_target X_target' : R) :
  (0 < k)%R ->
  (0 < X_target)%R -> (X_target < X_target')%R -> (X_target' < 1)%R ->
  exists t t',
    batch_time k X_target = Batch_write t
    /\ batch_time k X_target' = Batch_write t'
    /\ (0 < t)%R /\ (t < t')%R.
Proof.
  intros Hk H0 Hlt H1.
  rewrite (batch_time_value k X_target), (batch_time_value k X_target');
    try Lra.lra.
  do 2 eexists. split; [reflexivity|]. split; [reflexivity|].
  assert (Hln : (ln (1 - X_target) < 0)%R).
  { rewrite <- ln_1. apply ln_increasing; Lra.lra. }
  assert (Hln' : (ln (1 - X_target') < ln (1 - X_target))%R).
  { apply ln_increasing; Lra.lra. }
  assert (Hik : (0 < / k)%R) by now apply Rinv_0_lt_compat.
  unfold Rdiv. split.
  - apply Rmult_lt_0_compat; [Lra.lra|exact Hik].
  - apply Rmult_lt_compat_r; [exact Hik|Lra.lra].
Qed.

Lemma batch_time_increasing_witness :
  (0 < 0.23)%R /\ (0 < 0.5)%R /\ (0.5 < 0.99)%R /\ (0.99 < 1)%R
  /\ exists t t',
      batch_time 0.23 0.5 = Batch_write t
      /\ batch_time 0.23 0.99 = Batch_write t'
      /\ (0 < t)%R /\ (t < t')%R.
Proof.
  assert (H1 : (0 < 0.23)%R) by Lra.lra.
  assert (H2 : (0 < 0.5)%R) by Lra.lra.
  assert (H3 : (0.5 < 0.99)%R) by Lra.lra.
  assert (H4 : (0.99 < 1)%R) by Lra.lra.
  split; [exact H1|]. split; [exact H2|]. split; [exact H3|].
  split; [exact H4|].
  exact (batch_time_increasing 0.23 0.5 0.99 H1 H2 H3 H4).
Defined.

(** * Reading the text area *)

Lemma str_split_nonempty (sep : ascii) (s : string) : str_split sep s <> [].
Proof.
  destruct s as [|c s]; cbn [str_split]; [discriminate|].
  destruct (Ascii.eqb c sep); [discriminate|].
  destruct (str_split sep s); discriminate.
Qed.

Lemma str_split_length (sep : ascii) (s : string) :
  length (str_split sep s) = S (count_char sep s).
Proof.
  induction s as [|c s IH]; [reflexivity|].
  cbn [str_split count_char].
  destruct (Ascii.eqb c sep); cbn [length].
  - rewrite IH. reflexivity.
  - destruct (str_split sep s) eqn:E; cbn [length] in *; [discriminate|].
    exact IH.
Qed.

Lemma count_char_cons_zero (sep c : ascii) (s : string) :
  count_char sep (String c s) = 0%nat ->
  Ascii.eqb c sep = false /\ count_char sep s = 0%nat.
Proof.
  cbn [count_char]. destruct (Ascii.eqb c sep); [discriminate|].
  intros H. split; [reflexivity|exact H].
Qed.

Lemma str_split_no_sep (sep : ascii) (s : string) :
  count_char sep s = 0%nat -> str_split sep s = [s].
Proof.
  induction s as [|c s IH]; intros H; [reflexivity|].
  apply count_char_cons_zero in H as [Hc Hs].
  cbn [str_split]. rewrite Hc, (IH Hs). reflexivity.
Qed.

Lemma str_split_app (sep : ascii) (a b : string) :
  count_char sep a = 0%nat ->
  str_split sep (String.append a (String sep b)) = a :: str_split sep b.
Proof.
  induction a as [|c a IH]; intros H.
  - cbn [String.append str_split]. now rewrite Ascii.eqb_refl.
  - apply count_char_cons_zero in H as [Hc Ha].
    cbn [String.append str_split]. rewrite Hc, (IH Ha). reflexivity.
Qed.

Lemma map_float_length (float : string -> option Q) (tokens : list string)
      (vs : list Q) :
  map_float float tokens = Some vs -> length vs = length tokens.
Proof.
  revert vs. induction tokens as [|t ts IH]; intros vs; cbn [map_float].
  - intros H. injection H as <-. reflexivity.
  - destruct (float t); [|discriminate].
    destruct (map_float float ts) as [ws|]; [|discriminate].
    intros H. injection H as <-. cbn [length]. now rewrite (IH ws).
Qed.

Lemma map_float_total (float : string -> option Q) (tokens : list string) :
  Forall (fun t => float t <> None) tokens ->
  exists vs, map_float float tokens = Some vs.
Proof.
  induction 1 as [|t ts Ht _ [vs IH]]; cbn [map_float].
  - eexists. reflexivity.
  - destruct (float t); [|contradiction]. rewrite IH. eexists. reflexivity.
Qed.

Section Text.

Variable float : string -> option Q.
Variable strip : string -> string.

(** X13: a text that, once stripped, holds a single line is always
    refused, whatever the line holds: the parsing error is shown and
    the fallback table is used. *)
Theorem load_table_single_line (rate_input : string) :
  count_char newline (strip rate_input) = 0%nat ->
  load_table float strip rate_input = (true, fallback_df).
Proof.
  intros H. unfold load_table, parse_rows. cbv zeta.
  rewrite (str_split_no_sep newline _ H). cbn [nth_error].
  now destruct (map_float float (str_split comma (strip rate_input))).
Qed.

(** X14: only the first two lines of the stripped text are read: any
    further line leaves the table unchanged. *)
Theorem load_table_ignores_later_lines
        (rate_input rate_input' row0 row1 later : string) :
  count_char newline row0 = 0%nat ->
  count_char newline row1 = 0%nat ->
  strip rate_input
  = String.append row0 (String newline
                          (String.append row1 (String newline later))) ->
  strip rate_input' = String.append row0 (String newline row1) ->
  load_table float strip rate_input = load_table float strip rate_input'.
Proof.
  intros H0 H1 E E'. unfold load_table, parse_rows. cbv zeta.
  rewrite E, E'.
  rewrite !(str_split_app newline row0 _ H0).
  rewrite (str_split_app newline row1 _ H1).
  rewrite (str_split_no_sep newline row1 H1).
  reflexivity.
Qed.

(** X15: when every token of the first two lines is a number for
    [float], the table is accepted exactly when the two lines hold the
    same number of commas, and it then has one row more than a line has
    commas. *)
Theorem load_table_accepts_iff_same_commas
        (rate_input row0 row1 : string) (later : list string) :
  str_split newline (strip rate_input) = row0 :: row1 :: later ->
  Forall (fun t => float t <> None) (str_split comma row0) ->
  Forall (fun t => float t <> None) (str_split comma row1) ->
  (fst (load_table float strip rate_input) = false
   <-> count_char comma row0 = count_char comma row1)
  /\ (fst (load_table float strip rate_input) = false ->
      length (snd (load_table float strip rate_input))
      = S (count_char comma row0)).
Proof.
  intros E F0 F1. unfold load_table, parse_rows. cbv zeta.
  rewrite E. cbn [nth_error].
  destruct (map_float_total float _ F0) as [X_vals HX].
  destruct (map_float_total float _ F1) as [rA_vals Hr].
  rewrite HX, Hr.
  pose proof (map_float_length float _ _ HX) as LX.
  pose proof (map_float_length float _ _ Hr) as Lr.
  rewrite str_split_length in LX, Lr.
  unfold build_table, pd_DataFrame.
  destruct (Nat.eqb_spec (length X_vals) (length rA_vals)) as [Heq|Hne];
    cbn [fst snd].
  - split; [split; [intros _; lia|reflexivity]|].
    intros _. rewrite length_combine. lia.
  - split; [split; [discriminate|intros Hc; lia]|discriminate].
Qed.

End Text.

Lemma load_table_single_line_witness :
  count_char newline (example_strip "0.0,0.5,1.0") = 0%nat
  /\ load_table example_float example_strip "0.0,0.5,1.0"
     = (true, fallback_df).
Proof.
  assert (H : count_char newline (example_strip "0.0,0.5,1.0") = 0%nat)
    by reflexivity.
  split; [exact H|].
  exact (load_table_single_line example_float example_strip
                                "0.0,0.5,1.0" H).
Defined.

Lemma load_table_ignores_later_lines_witness :
  load_table example_float example_strip
             (String.append "0.0,0.5,1.0"
                (String newline
                   (String.append "0.01,0.005,0.0025"
                                  (String newline "1.0,1.0,1.0"))))
  = load_table example_float example_strip
               (String.append "0.0,0.5,1.0"
                              (String newline "0.01,0.005,0.0025")).
Proof.
  apply (load_table_ignores_later_lines
           example_float example_strip _ _
           "0.0,0.5,1.0" "0.01,0.005,0.0025" "1.0,1.0,1.0");
    reflexivity.
Defined.

Lemma load_table_accepts_iff_same_commas_witness :
  fst (load_table example_float example_strip
                  (String.append "0.0,0.5,1.0"
                                 (String newline "0.01,0.005,0.0025")))
  = false
  /\ length (snd (load_table example_float example_strip
                             (String.append "0.0,0.5,1.0"
                                (String newline "0.01,0.005,0.0025"))))
     = S (count_char comma "0.0,0.5,1.0").
Proof.
  destruct (load_table_accepts_iff_same_commas
              example_float example_strip
              (String.append "0.0,0.5,1.0"
                             (String newline "0.01,0.005,0.0025"))
              "0.0,0.5,1.0" "0.01,0.005,0.0025" [])
    as [Hiff Hlen].
  - reflexivity.
  - repeat constructor; discriminate.
  - repeat constructor; discriminate.
  - assert (Hacc := proj2 Hiff eq_refl).
    split; [exact Hacc|exact (Hlen Hacc)].
Defined.
